(** * An MP3 player: playlist, transport and session restore

    Shallow embedding of [player.py] (class [Mp3Player], dataclass [Track]).
    Python integers are [Z], Python lists are [list] indexed the way Python
    indexes them (negative indices count from the end, anything else out of
    range raises [IndexError]), text is [string] whose characters are the
    code points below 256, Python floats are binary64 numbers with
    round-to-nearest-even arithmetic.  A built-in that can raise returns
    [option], and a handler of the window reports whether it returned or let
    an exception escape, with the state it left. *)

From Stdlib Require Import ZArith Lia Bool String Ascii DecimalString.
From Stdlib Require Import Floats.SpecFloat.
From Stdlib Require DecimalPos DecimalFacts.
From stdpp Require Import base tactics option list strings.

Local Open Scope string_scope.
Local Open Scope list_scope.
Local Open Scope Z_scope.

(** ** Python built-ins used by the player *)

Module Py.

(** [l[i]]: [None] stands for [IndexError]. *)
Definition getitem {A} (l : list A) (i : Z) : option A :=
  let n := Z.of_nat (length l) in
  if decide (0 ≤ i < n) then l !! Z.to_nat i
  else if decide (- n ≤ i < 0) then l !! Z.to_nat (n + i)
  else None.

(** [del l[i]]: [None] stands for [IndexError]. *)
Definition delitem {A} (l : list A) (i : Z) : option (list A) :=
  let n := Z.of_nat (length l) in
  if decide (0 ≤ i < n) then Some (delete (Z.to_nat i) l)
  else if decide (- n ≤ i < 0) then Some (delete (Z.to_nat (n + i)) l)
  else None.

(** [len(l)] *)
Definition len {A} (l : list A) : Z := Z.of_nat (length l).

(** Truth value of a list: [if l:] *)
Definition truthy {A} (l : list A) : bool :=
  match l with [] => false | _ => true end.

(** *** Text *)

Definition code (c : ascii) : Z := Z.of_N (N_of_ascii c).

(** [c.isspace()] for the code points below 256. *)
Definition isspace (c : ascii) : bool :=
  let n := code c in
  ((9 <=? n) && (n <=? 13)) || ((28 <=? n) && (n <=? 32))
  || (n =? 133) || (n =? 160).

Fixpoint lstrip (s : string) : string :=
  match s with
  | String c s' => if isspace c then lstrip s' else s
  | EmptyString => EmptyString
  end.

Fixpoint rstrip (s : string) : string :=
  match s with
  | String c s' =>
      match rstrip s' with
      | EmptyString => if isspace c then EmptyString else String c EmptyString
      | r => String c r
      end
  | EmptyString => EmptyString
  end.

(** [s.strip()] *)
Definition strip (s : string) : string := rstrip (lstrip s).

(** Truth value of a string: [if s] *)
Definition nonempty (s : string) : bool :=
  match s with EmptyString => false | _ => true end.

Definition LF : ascii := ascii_of_nat 10.
Definition CR : ascii := ascii_of_nat 13.

(** [f.readlines()] on a file opened in text mode with the default
    [newline=None]: a line ends at LF, CR or CR LF, each handed over as
    LF, and keeps its line end; [line] is the line read so far. *)
Fixpoint readlines_from (line : string) (s : string) : list string :=
  match s with
  | EmptyString => if nonempty line then [line] else []
  | String c s' =>
      if Ascii.eqb c LF then (line +:+ String LF EmptyString) :: readlines_from EmptyString s'
      else if Ascii.eqb c CR then
        match s' with
        | String c' s'' =>
            if Ascii.eqb c' LF
            then (line +:+ String LF EmptyString) :: readlines_from EmptyString s''
            else (line +:+ String LF EmptyString) :: readlines_from EmptyString s'
        | EmptyString => [line +:+ String LF EmptyString]
        end
      else readlines_from (line +:+ String c EmptyString) s'
  end.

Definition readlines (s : string) : list string := readlines_from EmptyString s.

(** [s.split(sep)] for a one-character separator; [cur] is the field read
    so far. *)
Fixpoint split_from (sep : ascii) (cur : string) (s : string) : list string :=
  match s with
  | EmptyString => [cur]
  | String c s' =>
      if Ascii.eqb c sep then cur :: split_from sep EmptyString s'
      else split_from sep (cur +:+ String c EmptyString) s'
  end.

Definition split (sep : ascii) (s : string) : list string :=
  split_from sep EmptyString s.

Definition isdigit (c : ascii) : bool := (48 <=? code c) && (code c <=? 57).

(** The digits of [int(s)]: decimal digits, single underscores only between
    two digits.  [acc] is the value so far, [n] the number of digits read,
    [after_digit] whether the last character was a digit. *)
Fixpoint parse_digits (acc : Z) (n : Z) (after_digit : bool) (s : string)
  : option (Z * Z) :=
  match s with
  | EmptyString => if after_digit then Some (acc, n) else None
  | String c s' =>
      if isdigit c then parse_digits (10 * acc + (code c - 48)) (n + 1) true s'
      else if Ascii.eqb c "_" then
        if after_digit then parse_digits acc n false s' else None
      else None
  end.

(** The white space [int] skips around a number: that of [strip] without the
    four separators 28 to 31, which [int] refuses. *)
Definition int_space (c : ascii) : bool :=
  let n := code c in
  ((9 <=? n) && (n <=? 13)) || (n =? 32) || (n =? 133) || (n =? 160).

Fixpoint int_lstrip (s : string) : string :=
  match s with
  | String c s' => if int_space c then int_lstrip s' else s
  | EmptyString => EmptyString
  end.

Fixpoint int_rstrip (s : string) : string :=
  match s with
  | String c s' =>
      match int_rstrip s' with
      | EmptyString => if int_space c then EmptyString else String c EmptyString
      | r => String c r
      end
  | EmptyString => EmptyString
  end.

(** [int(s)] in base 10; [None] stands for [ValueError].  Text of more than
    4300 digits is refused, as the interpreter's default limit has it. *)
Definition int (s : string) : option Z :=
  let unsigned t :=
    match parse_digits 0 0 false t with
    | Some (v, n) => if 4300 <? n then None else Some v
    | None => None
    end in
  match int_rstrip (int_lstrip s) with
  | String "-" t => Z.opp <$> unsigned t
  | String "+" t => unsigned t
  | t => unsigned t
  end.

(** No line end inside [s]. *)
Fixpoint single_line (s : string) : bool :=
  match s with
  | String c s' => negb (Ascii.eqb c LF) && negb (Ascii.eqb c CR) && single_line s'
  | EmptyString => true
  end.

(** [str(n)] for an integer. *)
Definition str (n : Z) : string := NilZero.string_of_int (Z.to_int n).

(** [f"{n:02d}"]: at least two characters, zero-filled after the sign. *)
Definition format_02d (n : Z) : string :=
  let s := str n in
  if (String.length s <? 2)%nat then "0" +:+ s else s.

(** [c.lower()] for the code points below 256. *)
Definition lower_char (c : ascii) : ascii :=
  let n := code c in
  if ((65 <=? n) && (n <=? 90)) || ((192 <=? n) && (n <=? 214))
     || ((216 <=? n) && (n <=? 222))
  then ascii_of_N (Z.to_N (n + 32)) else c.

Fixpoint lower (s : string) : string :=
  match s with
  | String c s' => String (lower_char c) (lower s')
  | EmptyString => EmptyString
  end.

(** [s.lstrip('.')] *)
Fixpoint lstrip_dot (s : string) : string :=
  match s with
  | String c s' => if Ascii.eqb c "." then lstrip_dot s' else s
  | EmptyString => EmptyString
  end.

End Py.

(** ** Binary64 arithmetic

    A finite float is [mant * 2 ^ expo].  Results are rounded to nearest,
    ties to even, with 53 significant bits, subnormals below [2^-1022], and
    [None] where the result leaves the finite range (Python then raises
    [OverflowError], or produces an infinity that [int] refuses). *)

Module Float.

Record float := mk { mant : Z; expo : Z }.

#[global] Instance float_eq_dec : EqDecision float.
Proof. solve_decision. Defined.

(** The integer nearest to [n / d], ties to even ([0 < d]). *)
Definition rne (n d : Z) : Z :=
  let q := n / d in
  let r := n mod d in
  if 2 * r <? d then q
  else if d <? 2 * r then q + 1
  else if Z.even q then q else q + 1.

(** The binary exponent of [n / d]: [2^k ≤ n / d < 2^(k+1)] ([0 < n, d]). *)
Definition ilog2 (n d : Z) : Z :=
  let k := Z.log2 n - Z.log2 d in
  if d * 2 ^ Z.max k 0 <=? n * 2 ^ Z.max (- k) 0 then k else k - 1.

(** The float nearest to [n / d] ([0 < d]). *)
Definition round (n d : Z) : option float :=
  if n =? 0 then Some (mk 0 0)
  else
    let a := Z.abs n in
    let e := Z.max (ilog2 a d - 52) (-1074) in
    let m := rne (a * 2 ^ Z.max (- e) 0) (d * 2 ^ Z.max e 0) in
    let '(m, e) := if m =? 2 ^ 53 then (2 ^ 52, e + 1) else (m, e) in
    if 971 <? e then None else Some (mk (Z.sgn n * m) e).

(** [float(n)] for an integer [n]. *)
Definition of_int (n : Z) : option float := round n 1.

(** [a / b] for integers; [None] also stands for [ZeroDivisionError]. *)
Definition truediv (a b : Z) : option float :=
  if b =? 0 then None else round (a * Z.sgn b) (Z.abs b).

(** [x * y] *)
Definition mul (x y : float) : option float :=
  let e := expo x + expo y in
  round (mant x * mant y * 2 ^ Z.max e 0) (2 ^ Z.max (- e) 0).

(** [int(x)]: truncation towards zero. *)
Definition to_int (x : float) : Z :=
  if 0 <=? expo x then mant x * 2 ^ expo x
  else Z.quot (mant x) (2 ^ (- expo x)).

(** [x <= y] *)
Definition leb (x y : float) : bool :=
  let e := Z.min (expo x) (expo y) in
  mant x * 2 ^ (expo x - e) <=? mant y * 2 ^ (expo y - e).

(** A float literal [n / d] of the source text. *)
Definition lit (n d : Z) : float := default (mk 0 0) (round n d).

(** The same number in the Standard Library's specification of IEEE 754. *)
Definition to_spec (x : option float) : spec_float :=
  match x with
  | None => S754_infinity false
  | Some (mk Z0 _) => S754_zero false
  | Some (mk (Zpos m) e) => S754_finite false m e
  | Some (mk (Zneg m) e) => S754_finite true m e
  end.

(** Is [k] the binary exponent of [n / d]? *)
Definition is_exponent (n d k : Z) : Prop :=
  d * 2 ^ Z.max k 0 ≤ n * 2 ^ Z.max (- k) 0 < 2 * (d * 2 ^ Z.max k 0).

End Float.

(** ** The track record *)

Record Track := mkTrack { path : string; title : string }.

#[global] Instance Track_eq_dec : EqDecision Track.
Proof. solve_decision. Defined.

(** ** The platform: path library and file system *)

(** [pathlib] is the interpreter's; the player only needs these three
    functions of a path given as text. *)
Record PathLib := mkPathLib {
  path_str : string → string;     (* str(Path(p)) *)
  path_stem : string → string;    (* Path(p).stem *)
  path_suffix : string → string   (* Path(p).suffix *)
}.

(** What the player asks of the file system.  [open_r p] is the text of the
    file as [open(p, "r", encoding="utf-8")] followed by a read delivers it,
    [None] when either raises; [open_w p] tells whether writing [p]
    succeeds.  [exists_] and [is_file] are the answers of the two checks on
    paths the platform can examine; a path it cannot examine (a name that is
    too long, a directory that may not be searched) makes the checks raise,
    and such paths are left out. *)
Record FileSystem := mkFS {
  exists_ : string → bool;        (* Path(p).exists() *)
  is_file : string → bool;        (* Path(p).is_file() *)
  open_r : string → option string;
  open_w : string → bool
}.

(** The file system after [p] was written with [text]; other spellings of
    the same file are not followed. *)
Definition write_text (p text : string) (fs : FileSystem) : FileSystem :=
  mkFS (λ q, if decide (q = p) then true else exists_ fs q)
       (λ q, if decide (q = p) then true else is_file fs q)
       (λ q, if decide (q = p) then Some text else open_r fs q)
       (open_w fs).

(** The three files of the per-user data directory: [last_session.m3u],
    [last_volume.txt] (as the finite float its text denotes) and
    [last_state.txt]; [None] is a file that is missing or cannot be read or
    parsed. *)
Record Session := mkSession {
  last_session_file : option string;
  last_volume : option Float.float;
  last_state : option string
}.

(** ** The toolkit objects the player drives *)

Module Qt.

Inductive PlaybackState := StoppedState | PlayingState | PausedState.

#[global] Instance PlaybackState_eq_dec : EqDecision PlaybackState.
Proof. solve_decision. Defined.

Inductive MediaStatus := NoMedia | LoadedMedia | BufferedMedia | EndOfMedia | InvalidMedia.

#[global] Instance MediaStatus_eq_dec : EqDecision MediaStatus.
Proof. solve_decision. Defined.

(** Modelled from the spec: the platform media service ([QMediaPlayer] of the
    host toolkit) is not part of the repository.  The spec gives it the
    capability surface bind source, play, pause, stop, seek, get position,
    get duration, get playback state, and the three playback states
    Stopped, Playing, Paused.  Binding a source leaves the service stopped at
    position 0 with the duration not yet known (0); stop rewinds. *)
Record QMediaPlayer := mkMedia {
  source : option string;
  playbackState : PlaybackState;
  position : Z;
  duration : Z
}.

Definition setSource (url : string) (p : QMediaPlayer) : QMediaPlayer :=
  mkMedia (Some url) StoppedState 0 0.
Definition play (p : QMediaPlayer) : QMediaPlayer :=
  mkMedia (source p) PlayingState (position p) (duration p).
Definition pause (p : QMediaPlayer) : QMediaPlayer :=
  mkMedia (source p) PausedState (position p) (duration p).
Definition stop (p : QMediaPlayer) : QMediaPlayer :=
  mkMedia (source p) StoppedState 0 (duration p).
Definition setPosition (pos : Z) (p : QMediaPlayer) : QMediaPlayer :=
  mkMedia (source p) (playbackState p) pos (duration p).

(** A position is a signed 64-bit number: handed any other integer,
    [setPosition] raises [OverflowError] and the service is left alone. *)
Definition qint64 (z : Z) : bool := (- 2 ^ 63 <=? z) && (z <? 2 ^ 63).

(** Modelled from the spec: the audio output ([QAudioOutput]) is not part of
    the repository; it owns the volume, a normalized float in [0.0, 1.0]. *)
Definition setVolume (v : Float.float) : Float.float :=
  if Float.leb v (Float.mk 0 0) then Float.mk 0 0
  else if Float.leb (Float.mk 1 0) v then Float.mk 1 0
  else v.

(** Modelled from the spec: the playlist widget ([QListWidget], single
    selection) is not part of the repository.  It shows the titles in
    registry order and has a current row, -1 when there is none.  Taking the
    current item out moves the selection to the item after it, or to the one
    before it when it was the last. *)
Record QListWidget := mkList { items : list string; current : Z }.

Definition count (w : QListWidget) : Z := Py.len (items w).

Definition currentRow (w : QListWidget) : Z :=
  if decide (0 ≤ current w < count w) then current w else -1.

Definition setCurrentRow (r : Z) (w : QListWidget) : QListWidget :=
  mkList (items w) (if decide (0 ≤ r < count w) then r else -1).

Definition addItem (t : string) (w : QListWidget) : QListWidget :=
  mkList (items w ++ [t]) (current w).

Definition takeItem (r : Z) (w : QListWidget) : QListWidget :=
  if decide (0 ≤ r < count w) then
    let c := currentRow w in
    mkList (delete (Z.to_nat r) (items w))
           (if decide (c < r) then c
            else if decide (r < c) then c - 1
            else if decide (r + 1 < count w) then r else r - 1)
  else w.

Definition clear (w : QListWidget) : QListWidget := mkList [] (-1).

(** Modelled from the spec: a slider ([QSlider]) is not part of the
    repository; it keeps its value within its range. *)
Record QSlider := mkSlider { value : Z; minimum : Z; maximum : Z }.

Definition setValue (v : Z) (s : QSlider) : QSlider :=
  mkSlider (Z.max (minimum s) (Z.min (maximum s) v)) (minimum s) (maximum s).

(** The two pages of the stacked widget. *)
Inductive Page := full_widget | mini_widget.

#[global] Instance Page_eq_dec : EqDecision Page.
Proof. solve_decision. Defined.

End Qt.

Import Qt.

(** ** The player *)

Record Mp3Player := mkPlayer {
  tracks : list Track;
  current_index : option Z;
  _seeking : bool;
  player : QMediaPlayer;
  audio_output : Float.float;
  playlist_widget : QListWidget;
  btn_pause : string;
  btn_toggle_mini : string;
  stack : Page;
  seek_slider : QSlider;
  volume_slider : QSlider;
  time_label : string;
  mini_label : string;
  status : string
}.

(** A handler either returns or lets an exception escape; both leave a
    state behind. *)
Inductive result := Ok (st : Mp3Player) | Raised (st : Mp3Player).

Definition bind (r : result) (k : Mp3Player → result) : result :=
  match r with Ok st => k st | Raised st => Raised st end.

(** The state a handler leaves, however it ended. *)
Definition state_of (r : result) : Mp3Player :=
  match r with Ok st => st | Raised st => st end.

(** Field updates. *)
Definition set_tracks (v : list Track) (st : Mp3Player) : Mp3Player :=
  mkPlayer v (current_index st) (_seeking st) (player st) (audio_output st) (playlist_widget st) (btn_pause st) (btn_toggle_mini st) (stack st) (seek_slider st) (volume_slider st) (time_label st) (mini_label st) (status st).
Definition set_current_index (v : option Z) (st : Mp3Player) : Mp3Player :=
  mkPlayer (tracks st) v (_seeking st) (player st) (audio_output st) (playlist_widget st) (btn_pause st) (btn_toggle_mini st) (stack st) (seek_slider st) (volume_slider st) (time_label st) (mini_label st) (status st).
Definition set_seeking (v : bool) (st : Mp3Player) : Mp3Player :=
  mkPlayer (tracks st) (current_index st) v (player st) (audio_output st) (playlist_widget st) (btn_pause st) (btn_toggle_mini st) (stack st) (seek_slider st) (volume_slider st) (time_label st) (mini_label st) (status st).
Definition set_player (v : QMediaPlayer) (st : Mp3Player) : Mp3Player :=
  mkPlayer (tracks st) (current_index st) (_seeking st) v (audio_output st) (playlist_widget st) (btn_pause st) (btn_toggle_mini st) (stack st) (seek_slider st) (volume_slider st) (time_label st) (mini_label st) (status st).
Definition set_audio_output (v : Float.float) (st : Mp3Player) : Mp3Player :=
  mkPlayer (tracks st) (current_index st) (_seeking st) (player st) v (playlist_widget st) (btn_pause st) (btn_toggle_mini st) (stack st) (seek_slider st) (volume_slider st) (time_label st) (mini_label st) (status st).
Definition set_playlist_widget (v : QListWidget) (st : Mp3Player) : Mp3Player :=
  mkPlayer (tracks st) (current_index st) (_seeking st) (player st) (audio_output st) v (btn_pause st) (btn_toggle_mini st) (stack st) (seek_slider st) (volume_slider st) (time_label st) (mini_label st) (status st).
Definition set_btn_pause (v : string) (st : Mp3Player) : Mp3Player :=
  mkPlayer (tracks st) (current_index st) (_seeking st) (player st) (audio_output st) (playlist_widget st) v (btn_toggle_mini st) (stack st) (seek_slider st) (volume_slider st) (time_label st) (mini_label st) (status st).
Definition set_btn_toggle_mini (v : string) (st : Mp3Player) : Mp3Player :=
  mkPlayer (tracks st) (current_index st) (_seeking st) (player st) (audio_output st) (playlist_widget st) (btn_pause st) v (stack st) (seek_slider st) (volume_slider st) (time_label st) (mini_label st) (status st).
Definition set_stack (v : Page) (st : Mp3Player) : Mp3Player :=
  mkPlayer (tracks st) (current_index st) (_seeking st) (player st) (audio_output st) (playlist_widget st) (btn_pause st) (btn_toggle_mini st) v (seek_slider st) (volume_slider st) (time_label st) (mini_label st) (status st).
Definition set_seek_slider (v : QSlider) (st : Mp3Player) : Mp3Player :=
  mkPlayer (tracks st) (current_index st) (_seeking st) (player st) (audio_output st) (playlist_widget st) (btn_pause st) (btn_toggle_mini st) (stack st) v (volume_slider st) (time_label st) (mini_label st) (status st).
Definition set_volume_slider (v : QSlider) (st : Mp3Player) : Mp3Player :=
  mkPlayer (tracks st) (current_index st) (_seeking st) (player st) (audio_output st) (playlist_widget st) (btn_pause st) (btn_toggle_mini st) (stack st) (seek_slider st) v (time_label st) (mini_label st) (status st).
Definition set_time_label (v : string) (st : Mp3Player) : Mp3Player :=
  mkPlayer (tracks st) (current_index st) (_seeking st) (player st) (audio_output st) (playlist_widget st) (btn_pause st) (btn_toggle_mini st) (stack st) (seek_slider st) (volume_slider st) v (mini_label st) (status st).
Definition set_mini_label (v : string) (st : Mp3Player) : Mp3Player :=
  mkPlayer (tracks st) (current_index st) (_seeking st) (player st) (audio_output st) (playlist_widget st) (btn_pause st) (btn_toggle_mini st) (stack st) (seek_slider st) (volume_slider st) (time_label st) v (status st).
Definition set_status (v : string) (st : Mp3Player) : Mp3Player :=
  mkPlayer (tracks st) (current_index st) (_seeking st) (player st) (audio_output st) (playlist_widget st) (btn_pause st) (btn_toggle_mini st) (stack st) (seek_slider st) (volume_slider st) (time_label st) (mini_label st) v.

Definition SUPPORTED_EXTENSIONS : list string :=
  ["mp3"; "wav"; "flac"; "ogg"; "m4a"; "aac"].

(** [status.showMessage(msg, ...)] *)
Definition showMessage (msg : string) (st : Mp3Player) : Mp3Player :=
  set_status msg st.

(** The text [save_playlist] and [closeEvent] write: each path and a line
    end. *)
Definition playlist_text (ts : list Track) : string :=
  foldr (λ t rest, path t +:+ String Py.LF EmptyString +:+ rest) EmptyString ts.

(** A path that survives a line of a playlist file: not empty, on one line,
    no white space at either end. *)
Definition clean_path (p : string) : Prop :=
  p ≠ EmptyString ∧ Py.single_line p = true ∧ Py.lstrip p = p ∧ Py.rstrip p = p.

(** [[line.strip() for line in f.readlines() if line.strip()]] *)
Definition playlist_lines (text : string) : list string :=
  Py.strip <$> filter (λ line, Py.nonempty (Py.strip line) = true) (Py.readlines text).

(** [_format_time]; the argument is [None] for Python's [None], the result
    is [None] when [int(ms / 1000)] raises. *)
Definition _format_time (ms : option Z) : option string :=
  match ms with
  | None => Some "00:00"
  | Some ms =>
      if decide (ms ≤ 0) then Some "00:00"
      else
        x ← Float.truediv ms 1000;
        let seconds := Float.to_int x in
        let m := seconds / 60 in
        let s := seconds mod 60 in
        Some (Py.format_02d m +:+ ":" +:+ Py.format_02d s)
  end.

Section Handlers.

Context (pathlib : PathLib).

(** [Track.from_path(Path(p))] *)
Definition from_path (p : string) : Track :=
  mkTrack (path_str pathlib p) (path_stem pathlib p).

(** [Path(p).suffix.lower().lstrip('.') in SUPPORTED_EXTENSIONS] *)
Definition supported (p : string) : bool :=
  bool_decide (Py.lstrip_dot (Py.lower (path_suffix pathlib p)) ∈ SUPPORTED_EXTENSIONS).

(** [tracks.append(track); playlist_widget.addItem(track.title)] *)
Definition append_track (t : Track) (st : Mp3Player) : Mp3Player :=
  set_playlist_widget (addItem (title t) (playlist_widget st))
    (set_tracks (tracks st ++ [t]) st).

Definition _update_mini_label (st : Mp3Player) : result :=
  match current_index st with
  | None => Ok (set_mini_label "No track" st)
  | Some i =>
      match Py.getitem (tracks st) i with
      | Some t => Ok (set_mini_label (title t) st)
      | None => Raised st
      end
  end.

Definition _play_index (index : Z) (st : Mp3Player) : result :=
  match Py.getitem (tracks st) index with
  | None => Ok st
  | Some track =>
      let st := set_player (setSource (path track) (player st)) st in
      let st := set_player (play (player st)) st in
      let st := set_current_index (Some index) st in
      bind (_update_mini_label st) (λ st,
      Ok (showMessage ("Воспроизведение: " +:+ title track) st))
  end.

Definition play_next (st : Mp3Player) : result :=
  match current_index st with
  | None => Ok st
  | Some i =>
      let nxt := i + 1 in
      if decide (nxt < Py.len (tracks st)) then
        _play_index nxt
          (set_playlist_widget (setCurrentRow nxt (playlist_widget st)) st)
      else
        Ok (set_current_index None (set_player (stop (player st)) st))
  end.

Definition play_prev (st : Mp3Player) : result :=
  match current_index st with
  | None => Ok st
  | Some i =>
      let prev := Z.max 0 (i - 1) in
      _play_index prev
        (set_playlist_widget (setCurrentRow prev (playlist_widget st)) st)
  end.

Definition play_selected (st : Mp3Player) : result :=
  let row := currentRow (playlist_widget st) in
  let '(row, st) :=
    if bool_decide (row < 0) && Py.truthy (tracks st)
    then (0, set_playlist_widget (setCurrentRow 0 (playlist_widget st)) st)
    else (row, st) in
  if decide (row < 0) then Ok (showMessage "Плейлист пуст" st)
  else if bool_decide (current_index st = Some row)
          && bool_decide (playbackState (player st) = PausedState)
  then Ok (set_player (play (player st)) st)
  else _play_index row st.

Definition toggle_pause (st : Mp3Player) : result :=
  match playbackState (player st) with
  | PlayingState => Ok (set_btn_pause "▶" (set_player (pause (player st)) st))
  | PausedState => Ok (set_btn_pause "Pause" (set_player (play (player st)) st))
  | StoppedState => bind (play_selected st) (λ st, Ok (set_btn_pause "Pause" st))
  end.

(** [row] is the row of the item that was double-clicked. *)
Definition on_item_double (row : Z) (st : Mp3Player) : result :=
  _play_index row st.

Definition remove_selected (st : Mp3Player) : Mp3Player :=
  let sel := currentRow (playlist_widget st) in
  if decide (sel < 0) then st
  else
    let st :=
      if decide (current_index st = Some sel)
      then set_current_index None (set_player (stop (player st)) st)
      else st in
    let st := set_playlist_widget (takeItem sel (playlist_widget st)) st in
    match Py.delitem (tracks st) sel with
    | Some ts => set_tracks ts st
    | None => st
    end.

(** The loop of [add_tracks]: the paths that pass the test become tracks and
    are counted. *)
Definition add_paths (keep : string → bool) (paths : list string)
    (st : Mp3Player) : Mp3Player * Z :=
  foldl (λ '(st, added) p,
           if keep p then (append_track (from_path p) st, added + 1)
           else (st, added))
        (st, 0) paths.

(** [paths] is what the file dialog returned. *)
Definition add_tracks (paths : list string) (st : Mp3Player) : Mp3Player :=
  let '(st, added) := add_paths supported paths st in
  showMessage ("Добавлено: " +:+ Py.str added) st.

(** The loop shared by [load_playlist] and the session restore: every line
    whose path exists becomes a track. *)
Definition append_existing (fs : FileSystem) (lines : list string)
    (st : Mp3Player) : Mp3Player :=
  foldl (λ st p, if exists_ fs p then append_track (from_path p) st else st)
        st lines.

(** [path] is what the save dialog returned. *)
Definition save_playlist (path : string) (fs : FileSystem) (st : Mp3Player)
  : Mp3Player * FileSystem :=
  if negb (Py.nonempty path) then (st, fs)
  else if open_w fs path then
    (showMessage ("Плейлист сохранён: " +:+ path) st,
     write_text path (playlist_text (tracks st)) fs)
  else (showMessage "Ошибка сохранения плейлиста" st, fs).

(** [path] is what the open dialog returned. *)
Definition load_playlist (path : string) (fs : FileSystem) (st : Mp3Player)
  : Mp3Player :=
  if negb (Py.nonempty path) then st
  else
    match open_r fs path with
    | Some text =>
        let lines := playlist_lines text in
        let st := set_tracks [] st in
        let st := set_playlist_widget (clear (playlist_widget st)) st in
        let st := append_existing fs lines st in
        showMessage "Плейлист загружен" st
    | None => showMessage "Ошибка загрузки плейлиста" st
    end.

Definition on_media_status (status : MediaStatus) (st : Mp3Player) : result :=
  if decide (status = EndOfMedia) then play_next st else Ok st.

Definition toggle_mini_mode (st : Mp3Player) : Mp3Player :=
  if decide (stack st = full_widget)
  then set_btn_toggle_mini "Развернуть" (set_stack mini_widget st)
  else set_btn_toggle_mini "Мини-плеер" (set_stack full_widget st).

(** [f"{_format_time(position)} / {_format_time(duration)}"] *)
Definition time_text (position duration : Z) : option string :=
  a ← _format_time (Some position);
  b ← _format_time (Some duration);
  Some (a +:+ " / " +:+ b).

Definition on_position_changed (position : Z) (st : Mp3Player) : result :=
  if _seeking st then Ok st
  else
    let duration := Qt.duration (player st) in
    let moved :=
      if decide (0 < duration) then
        r ← Float.truediv position duration;
        m ← Float.of_int (maximum (seek_slider st));
        x ← Float.mul r m;
        Some (set_seek_slider (setValue (Float.to_int x) (seek_slider st)) st)
      else Some st in
    match moved with
    | None => Raised st
    | Some st =>
        match time_text position duration with
        | Some text => Ok (set_time_label text st)
        | None => Raised st
        end
    end.

Definition on_duration_changed (duration : Z) (st : Mp3Player) : result :=
  match time_text (Qt.position (player st)) duration with
  | Some text => Ok (set_time_label text st)
  | None => Raised st
  end.

Definition on_seek_pressed (st : Mp3Player) : Mp3Player := set_seeking true st.

Definition on_seek_moved (slider_value : Z) (st : Mp3Player) : result :=
  let duration := Qt.duration (player st) in
  if decide (duration ≤ 0) then Ok st
  else
    match (r ← Float.truediv slider_value (maximum (seek_slider st));
           d ← Float.of_int duration;
           Float.mul r d) with
    | Some x =>
        let pos := Float.to_int x in
        if qint64 pos then Ok (set_player (setPosition pos (player st)) st)
        else Raised st
    | None => Raised st
    end.

Definition on_seek_released (st : Mp3Player) : result :=
  let st := set_seeking false st in
  on_seek_moved (value (seek_slider st)) st.

(** The slot of [volume_slider.valueChanged]:
    [lambda v: audio_output.setVolume(v / 100)] *)
Definition on_volume_changed (v : Z) (st : Mp3Player) : result :=
  match Float.truediv v 100 with
  | Some x => Ok (set_audio_output (setVolume x) st)
  | None => Raised st
  end.

(** [volume_slider.setValue(v)] with its slot. *)
Definition set_volume_slider_value (v : Z) (st : Mp3Player) : result :=
  let s := setValue v (volume_slider st) in
  let st' := set_volume_slider s st in
  if decide (value s = value (volume_slider st)) then Ok st'
  else on_volume_changed (value s) st'.

(** The window as [_setup_player] and [_setup_ui] leave it. *)
Definition setup : Mp3Player :=
  mkPlayer [] None false (mkMedia None StoppedState 0 0)
           (setVolume (Float.lit 8 10)) (mkList [] (-1))
           "Pause" "Мини-плеер" full_widget
           (mkSlider 0 0 1000) (mkSlider 80 0 100)
           "00:00 / 00:00" "No track" "".

Definition restore_tracks (fs : FileSystem) (s : Session) (st : Mp3Player)
  : Mp3Player :=
  match last_session_file s with
  | Some text => append_existing fs (playlist_lines text) st
  | None => st
  end.

Definition restore_volume (s : Session) (st : Mp3Player) : Mp3Player :=
  match last_volume s with
  | Some v =>
      let st := set_audio_output (setVolume v) st in
      match (h ← Float.of_int 100; Float.mul v h) with
      | Some x => state_of (set_volume_slider_value (Float.to_int x) st)
      | None => st
      end
  | None => st
  end.

(** The last block of [__init__]: what raises inside its [try] ends the
    block where it stands, and is dropped. *)
Definition restore_state (s : Session) (st : Mp3Player) : Mp3Player :=
  match last_state s with
  | Some text =>
      match Py.split "|" text with
      | [a; b] =>
          match Py.int a, Py.int b with
          | Some idx, Some pos =>
              if decide (0 ≤ idx < Py.len (tracks st)) then
                let st := set_current_index (Some idx) st in
                let st := set_playlist_widget
                            (setCurrentRow idx (playlist_widget st)) st in
                match _play_index idx st with
                | Ok st =>
                    if qint64 pos then
                      let st := set_player (setPosition pos (player st)) st in
                      set_player (pause (player st)) st
                    else st
                | Raised st => st
                end
              else st
          | _, _ => st
          end
      | _ => st
      end
  | None => st
  end.

(** [Mp3Player.__init__] *)
Definition __init__ (fs : FileSystem) (s : Session) : Mp3Player :=
  restore_state s (restore_volume s (restore_tracks fs s setup)).

(** [closeEvent]: what the three files hold afterwards; [w1], [w2], [w3]
    tell whether each write succeeds, a failed one leaving the file as it
    was. *)
Definition closeEvent (w1 w2 w3 : bool) (old : Session) (st : Mp3Player)
  : Session :=
  let idx := match current_index st with Some i => i | None => -1 end in
  let pos := Qt.position (player st) in
  mkSession
    (if w1 then Some (playlist_text (tracks st)) else last_session_file old)
    (if w2 then Some (audio_output st) else last_volume old)
    (if w3 then Some (Py.str idx +:+ "|" +:+ Py.str pos) else last_state old).

End Handlers.

(** ** A concrete platform and a small playlist, for the examples *)

Module Demo.

(** The last component of a POSIX path. *)
Definition basename (p : string) : string :=
  default EmptyString (last (Py.split "/" p)).

(** Where the suffix of a file name starts, if it has one. *)
Definition split_suffix (name : string) : string * string :=
  match reverse (Py.split "." name) with
  | ext :: (_ :: _) as rest =>
      let stem := foldr (λ a b, if Py.nonempty b then a +:+ "." +:+ b else a)
                        EmptyString (reverse rest) in
      if Py.nonempty stem && Py.nonempty ext then (stem, "." +:+ ext)
      else (name, EmptyString)
  | _ => (name, EmptyString)
  end.

(** Paths that are already normalised: [str(Path(p))] is [p]. *)
Definition pathlib : PathLib :=
  mkPathLib (λ p, p) (λ p, fst (split_suffix (basename p)))
            (λ p, snd (split_suffix (basename p))).

(** Every file is there and readable; [files] gives the text of those that
    have been written. *)
Definition fs (files : list (string * string)) : FileSystem :=
  mkFS (λ _, true) (λ _, true)
       (λ p, snd <$> find (λ e, bool_decide (fst e = p)) files)
       (λ _, true).

Definition paths : list string :=
  ["/music/a.mp3"; "/music/b.mp3"; "/music/c.mp3"; "/music/d.mp3"].

(** The window after the four files were added. *)
Definition window : Mp3Player := add_tracks pathlib paths setup.

(** The same with the track at [i] playing. *)
Definition playing (i : Z) : Mp3Player :=
  state_of (on_item_double i window).

End Demo.

(** ** Invariants of the window *)

(** The playlist widget shows the titles of the registry, row by row. *)
Definition lockstep (st : Mp3Player) : Prop :=
  items (playlist_widget st) = title <$> tracks st.

(** A current index is never negative. *)
Definition index_from_front (st : Mp3Player) : Prop :=
  ∀ i, current_index st = Some i → 0 ≤ i.

(** The stacked widget and its toggle button agree on the view. *)
Definition view_consistent (st : Mp3Player) : Prop :=
  btn_toggle_mini st
  = match stack st with full_widget => "Мини-плеер" | mini_widget => "Развернуть" end.

(** Handlers called one after the other, until one lets an exception
    escape. *)
Fixpoint run (hs : list (Mp3Player → result)) (st : Mp3Player) : result :=
  match hs with
  | [] => Ok st
  | h :: hs => bind (h st) (run hs)
  end.

(** ** Decimal text *)

(** The value of the digits [u] read after the value [acc]. *)
Fixpoint uint_val (acc : Z) (u : Decimal.uint) : Z :=
  match u with
  | Decimal.Nil => acc
  | Decimal.D0 u => uint_val (10 * acc + 0) u
  | Decimal.D1 u => uint_val (10 * acc + 1) u
  | Decimal.D2 u => uint_val (10 * acc + 2) u
  | Decimal.D3 u => uint_val (10 * acc + 3) u
  | Decimal.D4 u => uint_val (10 * acc + 4) u
  | Decimal.D5 u => uint_val (10 * acc + 5) u
  | Decimal.D6 u => uint_val (10 * acc + 6) u
  | Decimal.D7 u => uint_val (10 * acc + 7) u
  | Decimal.D8 u => uint_val (10 * acc + 8) u
  | Decimal.D9 u => uint_val (10 * acc + 9) u
  end.

(** Text made of digits and minus signs only. *)
Fixpoint numeric (s : string) : bool :=
  match s with
  | String c s' => (Py.isdigit c || Ascii.eqb c "-") && numeric s'
  | EmptyString => true
  end.

(** * Facts *)

(** ** Binary64 rounding *)

Module FloatFacts.
Import Float.

Lemma rne_bound n d : 0 < d → - d ≤ 2 * (rne n d * d - n) ≤ d.
Proof.
  intros Hd. unfold rne.
  pose proof (Z.div_mod n d ltac:(lia)) as E.
  pose proof (Z.mod_pos_bound n d Hd) as B.
  destruct (2 * (n mod d) <? d) eqn:H1; [apply Z.ltb_lt in H1; nia|].
  apply Z.ltb_ge in H1.
  destruct (d <? 2 * (n mod d)) eqn:H2; [apply Z.ltb_lt in H2; nia|].
  apply Z.ltb_ge in H2.
  destruct (Z.even (n / d)); nia.
Qed.

Lemma rne_scale n d c : 0 < d → 0 < c → rne (n * c) (d * c) = rne n d.
Proof.
  intros Hd Hc. unfold rne.
  rewrite Z.div_mul_cancel_r by lia.
  rewrite Zmult_mod_distr_r.
  replace (2 * (n mod d * c) <? d * c) with (2 * (n mod d) <? d).
  2:{ apply eq_true_iff_eq. rewrite !Z.ltb_lt. nia. }
  replace (d * c <? 2 * (n mod d * c)) with (d <? 2 * (n mod d)).
  2:{ apply eq_true_iff_eq. rewrite !Z.ltb_lt. nia. }
  reflexivity.
Qed.

Lemma rne_exact n d : 0 < d → rne (n * d) d = n.
Proof.
  intros Hd. unfold rne. rewrite Z.div_mul, Z.mod_mul by lia.
  replace (2 * 0 <? d) with true; [done|]. symmetry. apply Z.ltb_lt. lia.
Qed.

Lemma pow2_pos k : 0 < 2 ^ k \/ k < 0.
Proof. destruct (Z.le_gt_cases 0 k); [left; apply Z.pow_pos_nonneg; lia | right; lia]. Qed.

Lemma ilog2_spec n d : 0 < n → 0 < d → is_exponent n d (ilog2 n d).
Proof.
  intros Hn Hd. unfold is_exponent, ilog2.
  destruct (Z.log2_spec n Hn) as [Hn1 Hn2].
  destruct (Z.log2_spec d Hd) as [Hd1 Hd2].
  pose proof (Z.log2_nonneg n). pose proof (Z.log2_nonneg d).
  remember (Z.log2 n) as la eqn:Ela. remember (Z.log2 d) as lb eqn:Elb.
  clear Ela Elb.
  rewrite Z.pow_succ_r in Hn2, Hd2 by lia.
  destruct (Z.le_gt_cases 0 (la - lb)) as [Hk|Hk].
  - (* la = lb + k *)
    assert (E : 2 ^ la = 2 ^ lb * 2 ^ (la - lb)) by (rewrite <- Z.pow_add_r by lia; f_equal; lia).
    assert (0 < 2 ^ lb) by (apply Z.pow_pos_nonneg; lia).
    assert (0 < 2 ^ (la - lb)) by (apply Z.pow_pos_nonneg; lia).
    rewrite (Z.max_l (la - lb) 0), (Z.max_r (- (la - lb)) 0) by lia.
    change (2 ^ 0) with 1.
    destruct (Z.leb_spec (d * 2 ^ (la - lb)) (n * 1)) as [T|T].
    + rewrite (Z.max_l (la - lb) 0), (Z.max_r (- (la - lb)) 0) by lia.
      change (2 ^ 0) with 1. nia.
    + destruct (Z.eq_dec la lb) as [->|Hne].
      * rewrite Z.sub_diag in *. change (2 ^ 0) with 1 in *.
        change (2 ^ Z.max (0 - 1) 0) with 1. change (2 ^ Z.max (- (0 - 1)) 0) with 2. lia.
      * rewrite (Z.max_l (la - lb - 1) 0), (Z.max_r (- (la - lb - 1)) 0) by lia.
        change (2 ^ 0) with 1.
        assert (E2 : 2 ^ (la - lb) = 2 * 2 ^ (la - lb - 1)).
        { rewrite <- Z.pow_succ_r by lia. f_equal. lia. }
        assert (0 < 2 ^ (la - lb - 1)) by (apply Z.pow_pos_nonneg; lia).
        nia.
  - assert (E : 2 ^ lb = 2 ^ la * 2 ^ (lb - la)) by (rewrite <- Z.pow_add_r by lia; f_equal; lia).
    assert (0 < 2 ^ la) by (apply Z.pow_pos_nonneg; lia).
    assert (0 < 2 ^ (lb - la)) by (apply Z.pow_pos_nonneg; lia).
    rewrite (Z.max_r (la - lb) 0), (Z.max_l (- (la - lb)) 0) by lia.
    change (2 ^ 0) with 1. replace (- (la - lb)) with (lb - la) by lia.
    destruct (Z.leb_spec (d * 1) (n * 2 ^ (lb - la))) as [T|T].
    + rewrite (Z.max_r (la - lb) 0), (Z.max_l (- (la - lb)) 0) by lia.
      change (2 ^ 0) with 1. replace (- (la - lb)) with (lb - la) by lia. nia.
    + rewrite (Z.max_r (la - lb - 1) 0), (Z.max_l (- (la - lb - 1)) 0) by lia.
      change (2 ^ 0) with 1. replace (- (la - lb - 1)) with (Z.succ (lb - la)) by lia.
      rewrite Z.pow_succ_r by lia. nia.
Qed.

Lemma scale_range x y z c : 0 < c → x ≤ y < z ↔ x * c ≤ y * c < z * c.
Proof.
  intros Hc. rewrite <- (Z.mul_le_mono_pos_r x y c), <- (Z.mul_lt_mono_pos_r c y z) by done.
  done.
Qed.

Lemma is_exponent_shift n d k t :
  0 ≤ t → 0 ≤ t + k →
  is_exponent n d k ↔ d * 2 ^ (t + k) ≤ n * 2 ^ t < 2 * (d * 2 ^ (t + k)).
Proof.
  intros Ht Htk. unfold is_exponent.
  destruct (Z.le_gt_cases 0 k) as [Hk|Hk].
  - rewrite (Z.max_l k 0), (Z.max_r (- k) 0) by lia. change (2 ^ 0) with 1.
    rewrite Z.pow_add_r by lia.
    assert (Hp : 0 < 2 ^ t) by (apply Z.pow_pos_nonneg; lia).
    rewrite (scale_range _ _ _ (2 ^ t) Hp).
    replace (d * 2 ^ k * 2 ^ t) with (d * (2 ^ t * 2 ^ k)) by ring.
    replace (2 * (d * 2 ^ k) * 2 ^ t) with (2 * (d * (2 ^ t * 2 ^ k))) by ring.
    by rewrite Z.mul_1_r.
  - rewrite (Z.max_r k 0), (Z.max_l (- k) 0) by lia. change (2 ^ 0) with 1.
    assert (Et : 2 ^ t = 2 ^ (t + k) * 2 ^ (- k)).
    { rewrite <- Z.pow_add_r by lia. f_equal. lia. }
    assert (Hp : 0 < 2 ^ (t + k)) by (apply Z.pow_pos_nonneg; lia).
    rewrite Et.
    rewrite (scale_range _ _ _ (2 ^ (t + k)) Hp).
    replace (d * 1 * 2 ^ (t + k)) with (d * 2 ^ (t + k)) by ring.
    replace (n * 2 ^ (- k) * 2 ^ (t + k)) with (n * (2 ^ (t + k) * 2 ^ (- k))) by ring.
    replace (2 * (d * 1) * 2 ^ (t + k)) with (2 * (d * 2 ^ (t + k))) by ring.
    done.
Qed.

Lemma is_exponent_unique n d k1 k2 :
  0 < d → is_exponent n d k1 → is_exponent n d k2 → k1 = k2.
Proof.
  intros Hd H1 H2.
  set (t := Z.abs k1 + Z.abs k2).
  apply (is_exponent_shift n d k1 t) in H1; [|lia..].
  apply (is_exponent_shift n d k2 t) in H2; [|lia..].
  destruct (Z.lt_trichotomy k1 k2) as [L|[E|L]]; [exfalso|done|exfalso].
  - assert (2 * 2 ^ (t + k1) ≤ 2 ^ (t + k2)).
    { rewrite <- Z.pow_succ_r by lia. apply Z.pow_le_mono_r; lia. }
    nia.
  - assert (2 * 2 ^ (t + k2) ≤ 2 ^ (t + k1)).
    { rewrite <- Z.pow_succ_r by lia. apply Z.pow_le_mono_r; lia. }
    nia.
Qed.

Lemma is_exponent_scale n d c k :
  0 < c → is_exponent (n * c) (d * c) k ↔ is_exponent n d k.
Proof. intros Hc. unfold is_exponent. nia. Qed.

Lemma ilog2_scale n d c : 0 < n → 0 < d → 0 < c → ilog2 (n * c) (d * c) = ilog2 n d.
Proof.
  intros Hn Hd Hc. apply (is_exponent_unique n d); [done| |by apply ilog2_spec].
  apply (is_exponent_scale n d c); [done|]. apply ilog2_spec; nia.
Qed.

(** Rounding depends on the ratio only. *)
Lemma round_scale n d c : 0 < d → 0 < c → round (n * c) (d * c) = round n d.
Proof.
  intros Hd Hc. unfold round.
  destruct (Z.eqb_spec n 0) as [->|Hn]; [done|].
  destruct (Z.eqb_spec (n * c) 0) as [E|_]; [nia|].
  rewrite Z.abs_mul, (Z.abs_eq c) by lia.
  rewrite ilog2_scale by lia.
  set (e := Z.max (ilog2 (Z.abs n) d - 52) (-1074)).
  replace (Z.abs n * c * 2 ^ Z.max (- e) 0) with (Z.abs n * 2 ^ Z.max (- e) 0 * c) by ring.
  replace (d * c * 2 ^ Z.max e 0) with (d * 2 ^ Z.max e 0 * c) by ring.
  rewrite rne_scale; [|assert (0 < 2 ^ Z.max e 0) by (apply Z.pow_pos_nonneg; lia); nia|done].
  rewrite Z.sgn_mul, (Z.sgn_pos c) by lia. by rewrite Z.mul_1_r.
Qed.

(** A ratio below [2^52] that is not subnormal: the result is the ratio
    scaled by [2^s] and rounded to an integer, [s] the number of fraction
    bits. *)
Lemma round_fraction n d :
  0 < n → 0 < d → n < 2 ^ 52 * d → d ≤ n * 2 ^ 1022 →
  ∃ s x,
    (0 < s ≤ 1074) ∧ (2 ^ 52 * d ≤ n * 2 ^ s < 2 ^ 53 * d) ∧
    round n d = Some x ∧ (- s ≤ expo x ≤ 0) ∧
    mant x * 2 ^ (s + expo x) = rne (n * 2 ^ s) d.
Proof.
  intros Hn Hd Hlt Hnorm.
  pose proof (ilog2_spec n d Hn Hd) as Hk.
  set (k := ilog2 n d) in *.
  assert (Hk52 : k < 52).
  { destruct (Z.lt_ge_cases k 52) as [|Hge]; [done|exfalso].
    unfold is_exponent in Hk. rewrite (Z.max_l k 0), (Z.max_r (- k) 0) in Hk by lia.
    change (2 ^ 0) with 1 in Hk.
    assert (2 ^ 52 ≤ 2 ^ k) by (apply Z.pow_le_mono_r; lia). nia. }
  assert (Hk1022 : -1022 ≤ k).
  { destruct (Z.le_gt_cases (-1022) k) as [|Hgt]; [done|exfalso].
    unfold is_exponent in Hk. rewrite (Z.max_r k 0), (Z.max_l (- k) 0) in Hk by lia.
    change (2 ^ 0) with 1 in Hk.
    assert (2 * 2 ^ 1022 ≤ 2 ^ (- k)).
    { rewrite <- Z.pow_succ_r by lia. apply Z.pow_le_mono_r; lia. }
    nia. }
  set (s := 52 - k).
  apply (is_exponent_shift n d k s) in Hk; [|lia..].
  replace (s + k) with 52 in Hk by lia.
  assert (Hs : 2 ^ 52 * d ≤ n * 2 ^ s < 2 ^ 53 * d).
  { change (2 ^ 53) with (2 * 2 ^ 52). lia. }
  pose proof (rne_bound (n * 2 ^ s) d Hd) as Hb.
  assert (Hm : 2 ^ 52 ≤ rne (n * 2 ^ s) d ≤ 2 ^ 53) by nia.
  unfold round. fold k.
  destruct (Z.eqb_spec n 0) as [|_]; [lia|].
  rewrite (Z.abs_eq n) by lia. fold k.
  rewrite (Z.max_l (k - 52) (-1074)) by lia.
  replace (- (k - 52)) with s by lia.
  rewrite (Z.max_l s 0), (Z.max_r (k - 52) 0) by lia.
  change (2 ^ 0) with 1. rewrite Z.mul_1_r, (Z.sgn_pos n) by lia.
  exists s. destruct (Z.eqb_spec (rne (n * 2 ^ s) d) (2 ^ 53)) as [E|E].
  - exists (mk (2 ^ 52) (k - 52 + 1)).
    rewrite (proj2 (Z.ltb_ge 971 _)) by lia. rewrite Z.mul_1_l.
    cbn [mant expo]. repeat split; try lia.
    rewrite E. replace (s + (k - 52 + 1)) with 1 by lia. done.
  - exists (mk (rne (n * 2 ^ s) d) (k - 52)).
    rewrite (proj2 (Z.ltb_ge 971 _)) by lia. rewrite Z.mul_1_l.
    cbn [mant expo]. repeat split; try lia.
    replace (s + (k - 52)) with 0 by lia. lia.
Qed.

Lemma to_int_fraction x s m :
  0 ≤ m → - s ≤ expo x ≤ 0 → mant x * 2 ^ (s + expo x) = m →
  to_int x = m / 2 ^ s.
Proof.
  intros Hm He <-. unfold to_int.
  assert (0 < 2 ^ (s + expo x)) by (apply Z.pow_pos_nonneg; lia).
  assert (0 < 2 ^ (- expo x)) by (apply Z.pow_pos_nonneg; lia).
  assert (0 ≤ mant x) by nia.
  replace (2 ^ s) with (2 ^ (- expo x) * 2 ^ (s + expo x)).
  2:{ rewrite <- Z.pow_add_r by lia. f_equal. lia. }
  rewrite Z.div_mul_cancel_r by lia.
  destruct (Z.leb_spec 0 (expo x)) as [Hx0|Hx0].
  - assert (expo x = 0) as -> by lia. cbn. rewrite Z.div_1_r. lia.
  - rewrite Z.quot_div_nonneg by lia. done.
Qed.

(** Truncating the quotient by 1000 is exact below [2^44] seconds. *)
Lemma truediv_1000_trunc ms :
  0 < ms < 2 ^ 44 * 1000 →
  ∃ x, truediv ms 1000 = Some x ∧ to_int x = ms / 1000.
Proof.
  intros Hms. unfold truediv. change (1000 =? 0) with false. cbv iota.
  change (Z.sgn 1000) with 1. change (Z.abs 1000) with 1000. rewrite Z.mul_1_r.
  assert (H44 : 2 ^ 44 * 1000 < 2 ^ 52 * 1000) by done.
  assert (H1022 : 1000 ≤ 2 ^ 1022) by (apply Z.leb_le; vm_compute; reflexivity).
  destruct (round_fraction ms 1000) as (s & x & Hs & Hb & Hr & He & Hx);
    [lia | lia | lia | generalize dependent (2 ^ 1022); intros; nia |].
  clear H1022.
  exists x. split; [done|].
  pose proof (rne_bound (ms * 2 ^ s) 1000 ltac:(lia)) as Hrne.
  change (2 ^ 44) with 17592186044416 in *.
  change (2 ^ 52) with 4503599627370496 in *.
  change (2 ^ 53) with 9007199254740992 in *.
  rewrite (to_int_fraction x s (rne (ms * 2 ^ s) 1000)) by (done || lia).
  assert (Hs9 : 2 ^ 9 ≤ 2 ^ s).
  { apply Z.pow_le_mono_r; [lia|].
    destruct (Z.lt_ge_cases s 9) as [Hlt|]; [exfalso|done].
    assert (2 ^ s ≤ 2 ^ 8) by (apply Z.pow_le_mono_r; lia). nia. }
  change (2 ^ 9) with 512 in Hs9.
  pose proof (Z.div_mod ms 1000 ltac:(lia)) as Hdm.
  pose proof (Z.mod_pos_bound ms 1000 ltac:(lia)) as Hmod.
  set (q := ms / 1000) in *. set (r := ms mod 1000) in *.
  symmetry. apply Z.div_unique with (r := rne (ms * 2 ^ s) 1000 - q * 2 ^ s).
  - left. nia.
  - lia.
Qed.

Lemma pow2_gt_0 k : 0 ≤ k → 0 < 2 ^ k.
Proof. intros. apply Z.pow_pos_nonneg; lia. Qed.

(** The product of two floats given with [sr] and [sd] fraction bits. *)
Lemma mul_scaled r y sr sd Mr Md :
  (- sr ≤ expo r ≤ 0) → (- sd ≤ expo y ≤ 0) →
  mant r * 2 ^ (sr + expo r) = Mr → mant y * 2 ^ (sd + expo y) = Md →
  mul r y = round (Mr * Md) (2 ^ sr * 2 ^ sd).
Proof.
  intros Hr Hy <- <-. unfold mul.
  rewrite (Z.max_r (expo r + expo y) 0), (Z.max_l (- (expo r + expo y)) 0) by lia.
  change (2 ^ 0) with 1. rewrite Z.mul_1_r.
  pose proof (pow2_gt_0 (sr + expo r) ltac:(lia)) as H1.
  pose proof (pow2_gt_0 (sd + expo y) ltac:(lia)) as H2.
  pose proof (pow2_gt_0 (- (expo r + expo y)) ltac:(lia)) as H3.
  rewrite <- (round_scale (mant r * mant y) _ (2 ^ (sr + expo r) * 2 ^ (sd + expo y)))
    by nia.
  f_equal; [ring|].
  rewrite <- !Z.pow_add_r by lia. f_equal. lia.
Qed.

(** An integer below [2^52] converts exactly. *)
Lemma of_int_exact d :
  0 < d < 2 ^ 52 →
  ∃ s y, 0 < s ∧ of_int d = Some y ∧ (- s ≤ expo y ≤ 0) ∧
         mant y * 2 ^ (s + expo y) = d * 2 ^ s.
Proof.
  intros Hd. unfold of_int.
  assert (H1022 : 1 ≤ 2 ^ 1022) by (apply Z.leb_le; vm_compute; reflexivity).
  destruct (round_fraction d 1) as (s & y & Hs & Hb & Hr & He & Hy);
    [lia | lia | lia | generalize dependent (2 ^ 1022); intros; nia |].
  exists s, y. rewrite <- (Z.mul_1_r (d * 2 ^ s)), rne_exact in Hy at 1 by lia.
  repeat split; (done || lia).
Qed.

Lemma seek_arith (v d A B Mr Mp : Z) :
  0 ≤ v ≤ 1000 → 0 < d < 1099511627776 → 4503599627370496 ≤ A → 0 < B →
  - 1000 ≤ 2 * (Mr * 1000 - v * A) ≤ 1000 →
  - A ≤ 2 * (Mp * A - Mr * d * B) ≤ A →
  4503599627370496 * A ≤ Mr * d * B →
  ((v * d / 1000 - 1) * B ≤ Mp < (v * d / 1000 + 1) * B) ∧
  ((v * d) mod 1000 ≠ 0 → v * d / 1000 * B ≤ Mp) ∧
  (v = 1000 → Mp = d * B).
Proof.
  intros Hv Hd HA HB HMr HMp Hbig.
  assert (Hfull : v = 1000 → Mp = d * B).
  { intros ->. assert (Mr = A) as -> by lia.
    assert (E : A * d * B = d * B * A) by ring. rewrite E in HMp.
    assert (- A < (Mp - d * B) * A < A) by lia.
    assert (- 1 < Mp - d * B < 1) by (clear - H HA; nia). lia. }
  pose proof (Z.div_mod (v * d) 1000 ltac:(lia)) as Hdm.
  pose proof (Z.mod_pos_bound (v * d) 1000 ltac:(lia)) as Hmod.
  remember (v * d / 1000) as t eqn:Et. remember ((v * d) mod 1000) as rem eqn:Erem.
  clear Et Erem.
  assert (HvA : 0 ≤ v * A ≤ 1000 * A) by (clear - Hv HA; nia).
  assert (HMrA : Mr ≤ A) by lia.
  assert (HdB : 0 < d * B) by (clear - Hd HB; nia).
  assert (HdB40 : d * B < 1099511627776 * B) by (clear - Hd HB; nia).
  assert (H1 : Mr * (d * B) ≤ A * (d * B)).
  { apply Z.mul_le_mono_nonneg_r; lia. }
  assert (HdB52 : 4503599627370496 ≤ d * B).
  { apply (Z.mul_le_mono_pos_l _ _ A); lia. }
  assert (HB12 : 4096 < B) by lia.
  assert (HAB : 4503599627370496 * B ≤ A * B).
  { apply Z.mul_le_mono_nonneg_r; lia. }
  assert (HAB2 : 4096 * A < A * B).
  { rewrite (Z.mul_comm 4096). apply Z.mul_lt_mono_pos_l; lia. }
  (* the slider quotient times the duration, scaled by A * B *)
  assert (E3 : v * d * (A * B) = 1000 * (t * (A * B)) + rem * (A * B)).
  { rewrite Hdm. ring. }
  assert (Hrem : 0 ≤ rem * (A * B) ≤ 999 * (A * B)).
  { split; [apply Z.mul_nonneg_nonneg; lia|apply Z.mul_le_mono_nonneg_r; lia]. }
  assert (Hup : 2000 * Mr * (d * B) ≤ (2 * (v * A) + 1000) * (d * B)).
  { apply Z.mul_le_mono_nonneg_r; lia. }
  assert (Hlo : (2 * (v * A) - 1000) * (d * B) ≤ 2000 * Mr * (d * B)).
  { apply Z.mul_le_mono_nonneg_r; lia. }
  assert (Hhi : Mp * A < (t + 1) * B * A) by lia.
  assert (Hlow : (t - 1) * B * A < (Mp + 1) * A) by lia.
  split; [split|split; [|done]].
  - apply Z.lt_succ_r. apply (Z.mul_lt_mono_pos_r A); lia.
  - apply (Z.mul_lt_mono_pos_r A); lia.
  - intros Hne. assert (1 * (A * B) ≤ rem * (A * B)).
    { apply Z.mul_le_mono_nonneg_r; lia. }
    assert (t * B * A < (Mp + 1) * A) by lia.
    apply Z.lt_succ_r. apply (Z.mul_lt_mono_pos_r A); lia.
Qed.

(** [int(v / 1000 * d)] for a slider value [v] and a duration [d]: the exact
    fraction [v * d / 1000] truncated, or one less when that fraction is a
    whole number that the product falls just short of. *)
Lemma seek_fraction v d :
  0 ≤ v ≤ 1000 → 0 < d < 2 ^ 40 →
  ∃ r y p, truediv v 1000 = Some r ∧ of_int d = Some y ∧ mul r y = Some p ∧
    (v * d / 1000 - 1 ≤ to_int p ≤ v * d / 1000) ∧
    ((v * d) mod 1000 ≠ 0 → to_int p = v * d / 1000) ∧
    0 ≤ to_int p ∧ (v = 1000 → to_int p = d).
Proof.
  intros Hv Hd.
  assert (H4052 : 2 ^ 40 < 2 ^ 52) by done.
  destruct (of_int_exact d) as (sd & y & Hsd & Hy & Hey & Hmy); [lia|].
  unfold truediv. change (1000 =? 0) with false. cbv iota.
  change (Z.sgn 1000) with 1. change (Z.abs 1000) with 1000. rewrite Z.mul_1_r.
  destruct (Z.eq_dec v 0) as [->|Hv0].
  { by exists (mk 0 0), y, (mk 0 0). }
  assert (H1022 : 1000 ≤ 2 ^ 1022) by (apply Z.leb_le; vm_compute; reflexivity).
  destruct (round_fraction v 1000) as (sr & r & Hsr & Hbr & Hr & Her & Hmr);
    [lia | lia | change (2 ^ 52) with 4503599627370496; lia
     | generalize dependent (2 ^ 1022); intros; nia |].
  clear H1022.
  pose proof (rne_bound (v * 2 ^ sr) 1000 ltac:(lia)) as HMr.
  set (Mr := rne (v * 2 ^ sr) 1000) in *.
  pose proof (pow2_gt_0 sr ltac:(lia)) as HA. set (A := 2 ^ sr) in *.
  pose proof (pow2_gt_0 sd ltac:(lia)) as HD.
  change (2 ^ 40) with 1099511627776 in *.
  change (2 ^ 52) with 4503599627370496 in *.
  change (2 ^ 53) with 9007199254740992 in *.
  assert (HvA : v * A ≤ 1000 * A) by nia.
  assert (HA52 : 4503599627370496 ≤ A) by lia.
  assert (HMrA : 0 < Mr ≤ A) by lia.
  assert (HMrlow : 4503599627370496 ≤ Mr) by lia.
  assert (Hmul : mul r y = round (Mr * d) A).
  { rewrite (mul_scaled r y sr sd Mr (d * 2 ^ sd)) by done.
    replace (Mr * (d * 2 ^ sd)) with (Mr * d * 2 ^ sd) by ring. fold A.
    by rewrite round_scale by lia. }
  assert (Hprod : 0 < Mr * d) by nia.
  assert (Hprod2 : Mr * d < 4503599627370496 * A) by nia.
  assert (Hnorm : A ≤ Mr * d * 2 ^ 1022).
  { assert (H1022 : 1001 ≤ 2 ^ 1022) by (apply Z.leb_le; vm_compute; reflexivity).
    assert (A ≤ 1001 * Mr) by nia.
    assert (Mr ≤ Mr * d) by nia.
    generalize dependent (2 ^ 1022). intros P HP.
    assert (1001 * (Mr * d) ≤ Mr * d * P) by (clear - Hprod HP; nia). lia. }
  destruct (round_fraction (Mr * d) A Hprod HA Hprod2 Hnorm)
    as (sp & p & Hsp & Hbp & Hp & Hep & Hmp).
  change (2 ^ 52) with 4503599627370496 in *.
  change (2 ^ 53) with 9007199254740992 in *.
  pose proof (rne_bound (Mr * d * 2 ^ sp) A HA) as HMp.
  set (Mp := rne (Mr * d * 2 ^ sp) A) in *.
  pose proof (pow2_gt_0 sp ltac:(lia)) as HB. set (B := 2 ^ sp) in *.
  exists r, y, p. split; [done|]. split; [done|]. split; [by rewrite Hmul|].
  assert (HMp0 : 0 ≤ Mp) by nia.
  rewrite (to_int_fraction p sp Mp) by done. fold B.
  destruct (seek_arith v d A B Mr Mp) as ([Hlow Hhi] & Hexact & Hfull); try lia.
  split; [|split; [|split]].
  - split.
    + apply Z.div_le_lower_bound; lia.
    + apply Z.lt_succ_r. apply Z.div_lt_upper_bound; lia.
  - intros Hrem. specialize (Hexact Hrem).
    symmetry. apply Z.div_unique with (r := Mp - v * d / 1000 * B); lia.
  - apply Z.div_pos; lia.
  - intros Hv1000. rewrite (Hfull Hv1000). apply Z.div_mul. lia.
Qed.

End FloatFacts.

(** ** Python indexing *)

Module PyFacts.

Lemma getitem_valid {A} (l : list A) (i : Z) :
  0 ≤ i < Py.len l → Py.getitem l i = l !! Z.to_nat i.
Proof. intros H. unfold Py.getitem, Py.len in *. by rewrite decide_True. Qed.

Lemma getitem_is_Some {A} (l : list A) (i : Z) :
  0 ≤ i < Py.len l → is_Some (Py.getitem l i).
Proof.
  intros H. rewrite getitem_valid by done.
  apply lookup_lt_is_Some. unfold Py.len in H. lia.
Qed.

Lemma getitem_beyond {A} (l : list A) (i : Z) :
  Py.len l ≤ i ∨ i < - Py.len l → Py.getitem l i = None.
Proof.
  intros H. unfold Py.getitem, Py.len in *.
  rewrite decide_False by lia. by rewrite decide_False by lia.
Qed.

Lemma delitem_valid {A} (l : list A) (i : Z) :
  0 ≤ i < Py.len l → Py.delitem l i = Some (delete (Z.to_nat i) l).
Proof. intros H. unfold Py.delitem, Py.len in *. by rewrite decide_True. Qed.

End PyFacts.

(** ** Transport *)

(** What [_play_index] leaves behind at an index of the registry. *)
Lemma _play_index_valid (i : Z) (st : Mp3Player) :
  0 ≤ i < Py.len (tracks st) →
  ∃ t st',
    tracks st !! Z.to_nat i = Some t ∧
    _play_index i st = Ok st' ∧
    current_index st' = Some i ∧
    player st' = mkMedia (Some (path t)) PlayingState 0 0 ∧
    tracks st' = tracks st ∧
    playlist_widget st' = playlist_widget st ∧
    mini_label st' = title t.
Proof.
  intros Hi.
  destruct (PyFacts.getitem_is_Some (tracks st) i Hi) as [t Ht].
  exists t. eexists. split; [by rewrite <- PyFacts.getitem_valid|].
  unfold _play_index. rewrite Ht. cbn.
  unfold _update_mini_label. cbn. rewrite Ht. cbn.
  repeat split; reflexivity.
Qed.

(** Beyond either end of the registry [_play_index] does nothing. *)
Lemma _play_index_beyond (i : Z) (st : Mp3Player) :
  Py.len (tracks st) ≤ i ∨ i < - Py.len (tracks st) → _play_index i st = Ok st.
Proof. intros H. unfold _play_index. by rewrite PyFacts.getitem_beyond. Qed.

(** ** The claims on the transport *)

(** C1. [play_next]: nothing happens while no track is current; when the
    index after the current one is an index of the registry, that track is
    bound and played and becomes current; from the last index playback stops,
    the current index is cleared, and a further [play_next] changes nothing
    (no wrap-around to the first track). *)
Theorem play_next_spec (st : Mp3Player) :
  (current_index st = None → play_next st = Ok st) ∧
  (∀ i, current_index st = Some i → 0 ≤ i + 1 < Py.len (tracks st) →
     ∃ t st', tracks st !! Z.to_nat (i + 1) = Some t ∧
       play_next st = Ok st' ∧
       current_index st' = Some (i + 1) ∧
       source (player st') = Some (path t) ∧
       playbackState (player st') = PlayingState ∧
       tracks st' = tracks st) ∧
  (∀ i, current_index st = Some i → i + 1 = Py.len (tracks st) →
     ∃ st', play_next st = Ok st' ∧
       playbackState (player st') = StoppedState ∧
       current_index st' = None ∧
       tracks st' = tracks st ∧
       play_next st' = Ok st').
Proof.
  split; [|split].
  - intros H. unfold play_next. by rewrite H.
  - intros i Hi Hv. unfold play_next. rewrite Hi. cbv zeta.
    rewrite decide_True by lia.
    set (st1 := set_playlist_widget _ st).
    destruct (_play_index_valid (i + 1) st1 Hv)
      as (t & st' & Ht & Hp & Hc & Hpl & Htr & _).
    exists t, st'. rewrite Hpl. by repeat split.
  - intros i Hi Hv. unfold play_next at 1. rewrite Hi. cbv zeta.
    rewrite decide_False by lia. eexists. repeat split.
Qed.

(** C2, as amended.  [play_prev]: nothing happens while no track is current;
    otherwise it aims at [max(0, current_index - 1)], never raises, and when
    that is an index of the registry the track there is bound and played and
    becomes current, so that from index 0 of a registry that still has a
    first track the current index stays 0.  When the registry has no such
    index (it shrank under the current index) nothing is bound or played and
    the current index is left as it was. *)
Theorem play_prev_spec (st : Mp3Player) :
  (current_index st = None → play_prev st = Ok st) ∧
  (∀ i, current_index st = Some i →
     let prev := Z.max 0 (i - 1) in
     (prev < Py.len (tracks st) →
        ∃ t st', tracks st !! Z.to_nat prev = Some t ∧
          play_prev st = Ok st' ∧
          current_index st' = Some prev ∧
          source (player st') = Some (path t) ∧
          playbackState (player st') = PlayingState ∧
          tracks st' = tracks st) ∧
     (Py.len (tracks st) ≤ prev →
        ∃ st', play_prev st = Ok st' ∧
          current_index st' = Some i ∧
          player st' = player st ∧
          tracks st' = tracks st)).
Proof.
  split.
  - intros H. unfold play_prev. by rewrite H.
  - intros i Hi prev. unfold play_prev. rewrite Hi. cbv zeta. fold prev.
    set (st1 := set_playlist_widget _ st). split.
    + intros Hv.
      destruct (_play_index_valid prev st1 ltac:(subst prev st1; cbn; lia))
        as (t & st' & Ht & Hp & Hc & Hpl & Htr & _).
      exists t, st'. rewrite Hpl. by repeat split.
    + intros Hv. exists st1. split; [|done].
      apply _play_index_beyond. by left.
Qed.

(** C7, as amended.  [_play_index] at an index of the registry binds the
    track's path as the media source, starts playback and makes the index
    current; at an index beyond either end of the registry ([index] at least
    the number of tracks, or below its negation) it does nothing at all. *)
Theorem _play_index_spec (index : Z) (st : Mp3Player) :
  (Py.len (tracks st) ≤ index ∨ index < - Py.len (tracks st) →
     _play_index index st = Ok st) ∧
  (0 ≤ index < Py.len (tracks st) →
     ∃ t st', tracks st !! Z.to_nat index = Some t ∧
       _play_index index st = Ok st' ∧
       source (player st') = Some (path t) ∧
       playbackState (player st') = PlayingState ∧
       current_index st' = Some index ∧
       tracks st' = tracks st).
Proof.
  split.
  - apply _play_index_beyond.
  - intros Hv.
    destruct (_play_index_valid index st Hv)
      as (t & st' & Ht & Hp & Hc & Hpl & Htr & _).
    exists t, st'. rewrite Hpl. by repeat split.
Qed.

(** C10. [remove_selected] with the selected row [sel]: when [sel] is the
    current index the service is stopped and the current index cleared;
    when it is another row of the registry the current index and the service
    are untouched, and a current index after [sel] then denotes what used to
    be the next entry of the registry. *)
Theorem remove_selected_spec (st : Mp3Player) :
  let sel := currentRow (playlist_widget st) in
  let st' := remove_selected st in
  0 ≤ sel < Py.len (tracks st) →
  tracks st' = delete (Z.to_nat sel) (tracks st) ∧
  (current_index st = Some sel →
     playbackState (player st') = StoppedState ∧ current_index st' = None) ∧
  (current_index st ≠ Some sel →
     current_index st' = current_index st ∧ player st' = player st ∧
     ∀ i, current_index st = Some i → sel < i →
       tracks st' !! Z.to_nat i = tracks st !! Z.to_nat (i + 1)).
Proof.
  intros sel st' Hsel. subst st'. unfold remove_selected. fold sel.
  rewrite decide_False by lia.
  destruct (decide (current_index st = Some sel)) as [E|E]; cbn;
    rewrite PyFacts.delitem_valid by done; cbn.
  - by repeat split.
  - repeat split; try done.
    intros i Hi Hlt. rewrite list_lookup_delete_ge by lia. f_equal. lia.
Qed.

Example demo_window_tracks :
  tracks Demo.window =
    [mkTrack "/music/a.mp3" "a"; mkTrack "/music/b.mp3" "b";
     mkTrack "/music/c.mp3" "c"; mkTrack "/music/d.mp3" "d"] ∧
  items (playlist_widget Demo.window) = ["a"; "b"; "c"; "d"] ∧
  status Demo.window = "Добавлено: 4".
Proof. by vm_compute. Qed.

(** From the second of four tracks [play_next] reaches the third; from the
    fourth it stops. *)
Lemma play_next_spec_witness :
  (∃ t st', tracks (Demo.playing 1) !! Z.to_nat (1 + 1) = Some t ∧
     play_next (Demo.playing 1) = Ok st' ∧
     current_index st' = Some (1 + 1) ∧
     source (player st') = Some (path t) ∧
     playbackState (player st') = PlayingState ∧
     tracks st' = tracks (Demo.playing 1)) ∧
  (∃ st', play_next (Demo.playing 3) = Ok st' ∧
     playbackState (player st') = StoppedState ∧
     current_index st' = None ∧
     tracks st' = tracks (Demo.playing 3) ∧
     play_next st' = Ok st').
Proof.
  split.
  - apply (proj1 (proj2 (play_next_spec (Demo.playing 1))) 1).
    + reflexivity.
    + vm_compute. split; [discriminate | reflexivity].
  - apply (proj2 (proj2 (play_next_spec (Demo.playing 3))) 3).
    + reflexivity.
    + reflexivity.
Defined.

(** The registry was replaced by an empty playlist while its first track was
    current: [play_prev] then binds and plays nothing, although a current
    index is present. *)
Lemma play_prev_counterexample :
  let st := load_playlist Demo.pathlib "/lists/empty.m3u"
              (Demo.fs [("/lists/empty.m3u", "")]) (Demo.playing 0) in
  current_index st = Some 0 ∧
  Py.getitem (tracks st) (Z.max 0 (0 - 1)) = None ∧
  play_prev st = Ok st.
Proof. by vm_compute. Qed.

Lemma play_prev_spec_witness :
  (∃ t st', tracks (Demo.playing 0) !! Z.to_nat (Z.max 0 (0 - 1)) = Some t ∧
     play_prev (Demo.playing 0) = Ok st' ∧
     current_index st' = Some (Z.max 0 (0 - 1)) ∧
     source (player st') = Some (path t) ∧
     playbackState (player st') = PlayingState ∧
     tracks st' = tracks (Demo.playing 0)) ∧
  (∃ st', play_prev (set_tracks [] (Demo.playing 0)) = Ok st' ∧
     current_index st' = Some 0 ∧
     player st' = player (set_tracks [] (Demo.playing 0)) ∧
     tracks st' = tracks (set_tracks [] (Demo.playing 0))).
Proof.
  split.
  - apply (proj1 (proj2 (play_prev_spec (Demo.playing 0)) 0 eq_refl)).
    vm_compute. reflexivity.
  - apply (proj2 (proj2 (play_prev_spec (set_tracks [] (Demo.playing 0))) 0 eq_refl)).
    vm_compute. discriminate.
Defined.

(** Index -1 is not an index of the registry, yet [_play_index] binds and
    plays the last track and records -1 as the current index. *)
Lemma _play_index_counterexample :
  ¬ (0 ≤ -1 < Py.len (tracks Demo.window)) ∧
  ∃ st', _play_index (-1) Demo.window = Ok st' ∧
    source (player st') = Some "/music/d.mp3" ∧
    playbackState (player st') = PlayingState ∧
    current_index st' = Some (-1).
Proof. split; [vm_compute; intros [H _]; by apply H|]. eexists. by vm_compute. Qed.

Lemma _play_index_spec_witness :
  _play_index 4 Demo.window = Ok Demo.window ∧
  ∃ t st', tracks Demo.window !! Z.to_nat 2 = Some t ∧
    _play_index 2 Demo.window = Ok st' ∧
    source (player st') = Some (path t) ∧
    playbackState (player st') = PlayingState ∧
    current_index st' = Some 2 ∧
    tracks st' = tracks Demo.window.
Proof.
  split.
  - apply (proj1 (_play_index_spec 4 Demo.window)). left. vm_compute. discriminate.
  - apply (proj2 (_play_index_spec 2 Demo.window)).
    vm_compute. split; [discriminate | reflexivity].
Defined.

(** The third of four tracks plays and the second row is selected and
    removed: the index stays 2 and now denotes the old fourth track. *)
Lemma remove_selected_spec_witness :
  let st := set_playlist_widget (setCurrentRow 1 (playlist_widget (Demo.playing 2)))
              (Demo.playing 2) in
  tracks (remove_selected st) = delete (Z.to_nat 1) (tracks st) ∧
  current_index (remove_selected st) = Some 2 ∧
  tracks (remove_selected st) !! Z.to_nat 2 = tracks st !! Z.to_nat (2 + 1).
Proof.
  intros st.
  destruct (remove_selected_spec st) as (Ht & _ & Hother).
  { vm_compute. split; [discriminate | reflexivity]. }
  destruct Hother as (Hc & _ & Hshift).
  { vm_compute. discriminate. }
  split; [exact Ht|]. split; [exact Hc|].
  apply Hshift; [reflexivity | vm_compute; reflexivity].
Defined.

(** The selected row of a playlist widget is a row of it, or -1. *)
Lemma currentRow_range (w : QListWidget) :
  currentRow w = -1 ∨ 0 ≤ currentRow w < count w.
Proof. unfold currentRow. destruct (decide _); [by right | by left]. Qed.

(** With a playlist to choose from and nothing paused, [play_selected]
    starts a track. *)
Lemma play_selected_starts (st : Mp3Player) :
  tracks st ≠ [] →
  items (playlist_widget st) = title <$> tracks st →
  playbackState (player st) ≠ PausedState →
  ∃ st', play_selected st = Ok st' ∧
    playbackState (player st') = PlayingState ∧
    is_Some (current_index st') ∧ tracks st' = tracks st ∧
    btn_pause st' = btn_pause st.
Proof.
  intros Hne Hlock Hstate. unfold play_selected.
  assert (Hcount : count (playlist_widget st) = Py.len (tracks st)).
  { unfold count, Py.len. by rewrite Hlock, length_fmap. }
  assert (Hlen : 0 < Py.len (tracks st)).
  { unfold Py.len. destruct (tracks st); [done | cbn; lia]. }
  assert (Htruthy : Py.truthy (tracks st) = true) by (by destruct (tracks st)).
  rewrite Htruthy, andb_true_r.
  destruct (currentRow_range (playlist_widget st)) as [Hrow|Hrow].
  - rewrite Hrow. cbn [bool_decide decide_rel]. rewrite bool_decide_eq_true_2 by lia.
    rewrite decide_False by lia.
    rewrite (bool_decide_eq_false_2 (playbackState _ = PausedState)) by done.
    rewrite andb_false_r.
    destruct (_play_index_valid 0
                (set_playlist_widget (setCurrentRow 0 (playlist_widget st)) st))
      as (t & st' & _ & Hp & Hc & Hpl & Htr & _); [cbn; lia|].
    exists st'. rewrite Hp, Hpl, Hc, Htr. repeat split; try done.
    unfold _play_index in Hp. cbn in Hp.
    destruct (Py.getitem (tracks st) 0); cbn in Hp; [|by inversion Hp].
    unfold _update_mini_label in Hp. cbn in Hp.
    destruct (Py.getitem (tracks st) 0); cbn in Hp; by inversion Hp.
  - rewrite bool_decide_eq_false_2 by lia. cbn [andb].
    rewrite decide_False by lia.
    rewrite (bool_decide_eq_false_2 (playbackState _ = PausedState)) by done.
    rewrite andb_false_r.
    destruct (_play_index_valid (currentRow (playlist_widget st)) st)
      as (t & st' & _ & Hp & Hc & Hpl & Htr & _); [lia|].
    exists st'. rewrite Hp, Hpl, Hc, Htr. repeat split; try done.
    unfold _play_index in Hp.
    destruct (Py.getitem (tracks st) _); cbn in Hp; [|by inversion Hp].
    unfold _update_mini_label in Hp. cbn in Hp.
    destruct (Py.getitem (tracks st) _); cbn in Hp; by inversion Hp.
Qed.

(** C3. [toggle_pause] on the service's playback state: Playing is paused
    and the button shows the resume glyph; Paused is resumed and the button
    shows "Pause" again; Stopped goes through [play_selected] and the button
    shows "Pause".  With a playlist to choose from, two calls in a row lead
    from Stopped to Playing and then Paused, and from Playing to Paused and
    then Playing. *)
Theorem toggle_pause_spec (st : Mp3Player) :
  (playbackState (player st) = PlayingState →
     ∃ st1 st2, toggle_pause st = Ok st1 ∧
       playbackState (player st1) = PausedState ∧ btn_pause st1 = "▶" ∧
       toggle_pause st1 = Ok st2 ∧
       playbackState (player st2) = PlayingState ∧ btn_pause st2 = "Pause" ∧
       source (player st2) = source (player st) ∧
       position (player st2) = position (player st) ∧
       current_index st2 = current_index st) ∧
  (playbackState (player st) = PausedState →
     ∃ st1, toggle_pause st = Ok st1 ∧
       playbackState (player st1) = PlayingState ∧ btn_pause st1 = "Pause" ∧
       source (player st1) = source (player st) ∧
       position (player st1) = position (player st) ∧
       current_index st1 = current_index st) ∧
  (playbackState (player st) = StoppedState →
     toggle_pause st = bind (play_selected st) (λ st1, Ok (set_btn_pause "Pause" st1)) ∧
     (tracks st ≠ [] → items (playlist_widget st) = title <$> tracks st →
        ∃ st1 st2, toggle_pause st = Ok st1 ∧
          playbackState (player st1) = PlayingState ∧ btn_pause st1 = "Pause" ∧
          toggle_pause st1 = Ok st2 ∧
          playbackState (player st2) = PausedState ∧ btn_pause st2 = "▶")).
Proof.
  split; [|split].
  - intros H. unfold toggle_pause at 1. rewrite H.
    eexists. eexists. split; [reflexivity|]. by repeat split.
  - intros H. unfold toggle_pause. rewrite H.
    eexists. split; [reflexivity|]. by repeat split.
  - intros H. split; [unfold toggle_pause; by rewrite H|].
    intros Hne Hlock.
    destruct (play_selected_starts st Hne Hlock) as (st1 & Hp & Hs & _);
      [by rewrite H|].
    unfold toggle_pause at 1. rewrite H, Hp. cbn [bind].
    eexists. eexists. split; [reflexivity|].
    split; [done|]. split; [done|].
    unfold toggle_pause. cbn. rewrite Hs. by repeat split.
Qed.

Lemma toggle_pause_spec_witness :
  (∃ st1 st2, toggle_pause Demo.window = Ok st1 ∧
     playbackState (player st1) = PlayingState ∧ btn_pause st1 = "Pause" ∧
     toggle_pause st1 = Ok st2 ∧
     playbackState (player st2) = PausedState ∧ btn_pause st2 = "▶") ∧
  (∃ st1 st2, toggle_pause (Demo.playing 1) = Ok st1 ∧
     playbackState (player st1) = PausedState ∧ btn_pause st1 = "▶" ∧
     toggle_pause st1 = Ok st2 ∧
     playbackState (player st2) = PlayingState ∧ btn_pause st2 = "Pause" ∧
     source (player st2) = source (player (Demo.playing 1)) ∧
     position (player st2) = position (player (Demo.playing 1)) ∧
     current_index st2 = current_index (Demo.playing 1)).
Proof.
  split.
  - apply (proj2 (proj2 (toggle_pause_spec Demo.window))).
    + reflexivity.
    + vm_compute. discriminate.
    + vm_compute. reflexivity.
  - apply (proj1 (toggle_pause_spec (Demo.playing 1))). reflexivity.
Defined.

(** ** Playlist files *)

Section Playlists.

Context (pathlib : PathLib).

(** C9. When reading the chosen playlist file raises, [load_playlist] only
    shows the load-error message: the registry, the playlist widget and all
    the rest of the window are as before. *)
Theorem load_playlist_read_error (p : string) (fs : FileSystem) (st : Mp3Player) :
  p ≠ EmptyString → open_r fs p = None →
  let st' := load_playlist pathlib p fs st in
  st' = set_status "Ошибка загрузки плейлиста" st ∧
  tracks st' = tracks st ∧ playlist_widget st' = playlist_widget st ∧
  current_index st' = current_index st ∧ player st' = player st.
Proof.
  intros Hp Hr st'. subst st'. unfold load_playlist.
  destruct p; [done|]. cbn [Py.nonempty negb]. by rewrite Hr.
Qed.

End Playlists.

Lemma load_playlist_read_error_witness :
  let st' := load_playlist Demo.pathlib "/lists/gone.m3u" (Demo.fs []) Demo.window in
  st' = set_status "Ошибка загрузки плейлиста" Demo.window ∧
  tracks st' = tracks Demo.window ∧
  playlist_widget st' = playlist_widget Demo.window ∧
  current_index st' = current_index Demo.window ∧
  player st' = player Demo.window.
Proof.
  apply (load_playlist_read_error Demo.pathlib "/lists/gone.m3u" (Demo.fs []) Demo.window).
  - discriminate.
  - reflexivity.
Defined.

(** ** Time and seeking *)

(** The rounding above is that of the Standard Library's IEEE 754
    specification, here on the quotients and products the examples below
    rely on. *)
Example float_agrees_with_SpecFloat :
  Float.to_spec (Float.truediv 17592186044416999 1000)
    = SFdiv 53 1024 (S754_finite false 17592186044416999 0) (S754_finite false 1000 0) ∧
  Float.to_spec (Float.truediv 9 1000)
    = SFdiv 53 1024 (S754_finite false 9 0) (S754_finite false 1000 0) ∧
  Float.to_spec (Float.of_int 180000) = binary_normalize 53 1024 180000 0 false ∧
  Float.to_spec (r ← Float.truediv 9 1000; d ← Float.of_int 180000; Float.mul r d)
    = SFmul 53 1024
        (SFdiv 53 1024 (S754_finite false 9 0) (S754_finite false 1000 0))
        (binary_normalize 53 1024 180000 0 false) ∧
  Float.to_spec (Float.truediv 35 100)
    = SFdiv 53 1024 (S754_finite false 35 0) (S754_finite false 100 0) ∧
  Float.to_spec (Float.of_int (2 ^ 1024)) = binary_normalize 53 1024 (2 ^ 1024) 0 false ∧
  Float.to_spec (Float.truediv 1 (2 ^ 1074))
    = SFdiv 53 1024 (S754_finite false 1 0) (S754_finite false 1 1074).
Proof. vm_compute. by repeat split. Qed.

(** At [2^44] seconds and 999 ms the quotient [ms / 1000] rounds up to the
    next whole second: the seconds field shows 17 where truncation gives
    16. *)
Lemma _format_time_counterexample :
  _format_time (Some 17592186044416999) = Some "293203100740:17" ∧
  Py.format_02d (17592186044416999 / 1000 / 60) +:+ ":"
    +:+ Py.format_02d (17592186044416999 / 1000 mod 60) = "293203100740:16".
Proof. by vm_compute. Qed.

(** C5, as amended.  [_format_time] shows "00:00" for [None] and for every
    value that is zero or negative, and for a positive value below
    [2^44 * 1000] ms the minutes and seconds of [ms] truncated to whole
    seconds, each filled to two digits and the minutes not limited to two;
    so 0 gives "00:00", 65000 gives "01:05" and a hundred minutes give
    "100:00". *)
Theorem _format_time_spec :
  _format_time None = Some "00:00" ∧
  (∀ ms, ms ≤ 0 → _format_time (Some ms) = Some "00:00") ∧
  (∀ ms, 0 < ms < 2 ^ 44 * 1000 →
     _format_time (Some ms) =
       Some (Py.format_02d (ms / 1000 / 60) +:+ ":"
             +:+ Py.format_02d (ms / 1000 mod 60)) ∧
     0 ≤ ms / 1000 mod 60 < 60) ∧
  _format_time (Some 0) = Some "00:00" ∧
  _format_time (Some 65000) = Some "01:05" ∧
  _format_time (Some 6000000) = Some "100:00".
Proof.
  split; [done|]. split; [|split; [|by vm_compute]].
  - intros ms H. unfold _format_time. by rewrite decide_True.
  - intros ms H. split; [|by apply Z.mod_pos_bound].
    unfold _format_time. rewrite decide_False by lia.
    destruct (FloatFacts.truediv_1000_trunc ms H) as (x & Hx & Hi).
    rewrite Hx. cbn. by rewrite Hi.
Qed.

Lemma _format_time_spec_witness :
  _format_time (Some (-5)) = Some "00:00" ∧
  _format_time (Some 3599999) =
    Some (Py.format_02d (3599999 / 1000 / 60) +:+ ":"
          +:+ Py.format_02d (3599999 / 1000 mod 60)) ∧
  0 ≤ 3599999 / 1000 mod 60 < 60.
Proof.
  split.
  - apply (proj1 (proj2 _format_time_spec) (-5)). lia.
  - apply (proj1 (proj2 (proj2 _format_time_spec)) 3599999).
    vm_compute. split; reflexivity.
Defined.

(** On a three-minute track the slider at 9 of 1000 seeks to 1619 ms,
    one short of the 1620 ms that 9/1000 of the duration is. *)
Lemma on_seek_moved_counterexample :
  let st := set_player (mkMedia (Some "/music/a.mp3") PlayingState 0 180000)
              (Demo.playing 0) in
  ∃ st', on_seek_moved 9 st = Ok st' ∧ position (player st') = 1619 ∧
         9 * 180000 / 1000 = 1620.
Proof. eexists. by vm_compute. Qed.

(** C6, as amended.  While the service reports no duration, or one that is
    zero or negative, [on_seek_moved] changes nothing.  Otherwise, for a
    slider value between 0 and the maximum 1000 and a duration below [2^40]
    ms, it seeks to a position that is the fraction
    [slider_value * duration / 1000] truncated to an integer, or one less
    than it when the fraction is a whole number of milliseconds; the ends of
    the slider seek to 0 and to the duration. *)
Theorem on_seek_moved_spec (v : Z) (st : Mp3Player) :
  let d := duration (player st) in
  (d ≤ 0 → on_seek_moved v st = Ok st) ∧
  (maximum (seek_slider st) = 1000 → 0 ≤ v ≤ 1000 → 0 < d < 2 ^ 40 →
     ∃ pos, on_seek_moved v st = Ok (set_player (setPosition pos (player st)) st) ∧
       (v * d / 1000 - 1 ≤ pos ≤ v * d / 1000) ∧
       ((v * d) mod 1000 ≠ 0 → pos = v * d / 1000) ∧
       (v = 0 → pos = 0) ∧ (v = 1000 → pos = d)).
Proof.
  intros d. split.
  - intros H. unfold on_seek_moved. fold d. by rewrite decide_True.
  - intros Hmax Hv Hd. unfold on_seek_moved. fold d.
    rewrite decide_False by lia. rewrite Hmax.
    destruct (FloatFacts.seek_fraction v d Hv Hd)
      as (r & y & p & Hr & Hy & Hp & Hb & He & H0 & H1).
    rewrite Hr. cbn. rewrite Hy. cbn. rewrite Hp.
    assert (Hq : qint64 (Float.to_int p) = true).
    { assert (v * d / 1000 ≤ d) by (apply Z.div_le_upper_bound; nia).
      change (2 ^ 40) with 1099511627776 in Hd.
      unfold qint64. apply andb_true_iff.
      split; [apply Z.leb_le|apply Z.ltb_lt];
        change (2 ^ 63) with 9223372036854775808; lia. }
    cbv zeta. rewrite Hq.
    exists (Float.to_int p). repeat split; try done; try lia.
    intros ->. rewrite Z.mul_0_l, Z.div_0_l in Hb by lia. lia.
Qed.

Lemma on_seek_moved_spec_witness :
  let st := set_player (mkMedia (Some "/music/a.mp3") PlayingState 0 180000)
              (Demo.playing 0) in
  on_seek_moved 500 (Demo.playing 0) = Ok (Demo.playing 0) ∧
  ∃ pos, on_seek_moved 7 st = Ok (set_player (setPosition pos (player st)) st) ∧
    (7 * 180000 / 1000 - 1 ≤ pos ≤ 7 * 180000 / 1000) ∧
    ((7 * 180000) mod 1000 ≠ 0 → pos = 7 * 180000 / 1000) ∧
    (7 = 0 → pos = 0) ∧ (7 = 1000 → pos = 180000).
Proof.
  intros st. split.
  - apply (proj1 (on_seek_moved_spec 500 (Demo.playing 0))). vm_compute. discriminate.
  - apply (proj2 (on_seek_moved_spec 7 st)).
    + reflexivity.
    + lia.
    + vm_compute. split; reflexivity.
Defined.

(** ** Text of playlist files *)

Module TextFacts.

Lemma append_cons (c : ascii) (s t : string) :
  String c s +:+ t = String c (s +:+ t).
Proof. reflexivity. Qed.

Lemma append_empty_r (s : string) : s +:+ EmptyString = s.
Proof. induction s as [|c s IH]; [done|]. by rewrite append_cons, IH. Qed.

Lemma append_assoc (a b c : string) : (a +:+ b) +:+ c = a +:+ (b +:+ c).
Proof. induction a as [|x a IH]; [done|]. by rewrite !append_cons, IH. Qed.

Lemma lstrip_length (s : string) : (String.length (Py.lstrip s) ≤ String.length s)%nat.
Proof.
  induction s as [|c s IH]; [done|]. cbn. destruct (Py.isspace c); cbn; lia.
Qed.

(** A non-empty text that [lstrip] leaves alone starts with a character
    that is not white space. *)
Lemma lstrip_fixed_head (c : ascii) (s : string) :
  Py.lstrip (String c s) = String c s → Py.isspace c = false.
Proof.
  cbn. destruct (Py.isspace c); [|done]. intros H.
  pose proof (lstrip_length s) as Hl. rewrite H in Hl. cbn in Hl. lia.
Qed.

Lemma rstrip_line_end (s : string) :
  Py.rstrip (s +:+ String Py.LF EmptyString) = Py.rstrip s.
Proof.
  induction s as [|c s IH]; [done|].
  rewrite append_cons. change (Py.rstrip (String c ?x))
    with (match Py.rstrip x with
          | EmptyString => if Py.isspace c then EmptyString else String c EmptyString
          | r => String c r
          end).
  by rewrite IH.
Qed.

(** A line of a playlist file gives its path back. *)
Lemma strip_line (p : string) :
  clean_path p → Py.strip (p +:+ String Py.LF EmptyString) = p.
Proof.
  intros (Hne & _ & Hl & Hr). unfold Py.strip.
  destruct p as [|c p]; [done|].
  pose proof (lstrip_fixed_head c p Hl) as Hc.
  rewrite append_cons. cbn [Py.lstrip]. rewrite Hc, <- append_cons.
  by rewrite rstrip_line_end.
Qed.

Lemma readlines_from_line (line p rest : string) :
  Py.single_line p = true →
  Py.readlines_from line (p +:+ String Py.LF rest)
  = (line +:+ p +:+ String Py.LF EmptyString) :: Py.readlines_from EmptyString rest.
Proof.
  revert line. induction p as [|c p IH]; intros line Hp.
  - done.
  - cbn in Hp. apply andb_true_iff in Hp as [Hc Hp].
    apply andb_true_iff in Hc as [Hlf Hcr].
    apply negb_true_iff in Hlf, Hcr.
    rewrite append_cons. cbn [Py.readlines_from]. rewrite Hlf, Hcr.
    rewrite IH by done. by rewrite append_assoc.
Qed.

Lemma readlines_playlist_text (ts : list Track) :
  Forall (λ t, clean_path (path t)) ts →
  Py.readlines (playlist_text ts)
  = (λ t, path t +:+ String Py.LF EmptyString) <$> ts.
Proof.
  unfold Py.readlines. induction 1 as [|t ts (_ & Hs & _) _ IH]; [done|].
  cbn [playlist_text foldr].
  change (String Py.LF EmptyString +:+ ?r) with (String Py.LF r).
  rewrite readlines_from_line by done. cbn [fmap list_fmap]. f_equal.
  exact IH.
Qed.

(** Reading back what was written for a registry of clean paths gives the
    paths, in order. *)
Lemma playlist_lines_text (ts : list Track) :
  Forall (λ t, clean_path (path t)) ts →
  playlist_lines (playlist_text ts) = path <$> ts.
Proof.
  intros H. unfold playlist_lines. rewrite readlines_playlist_text by done.
  induction H as [|t ts Ht _ IH]; [done|].
  cbn [fmap list_fmap]. rewrite filter_cons.
  rewrite (strip_line _ Ht). pose proof Ht as (Hne & _).
  rewrite decide_True by (by destruct (path t)).
  cbn [fmap list_fmap]. rewrite (strip_line _ Ht).
  f_equal. exact IH.
Qed.

End TextFacts.

(** ** Loading and restoring playlists *)

Section PlaylistClaims.

Context (pathlib : PathLib).

(** The loop over the lines of a playlist: the lines whose path exists are
    appended, in order, to the registry and to the widget; nothing else
    changes. *)
Lemma append_existing_eq (fs : FileSystem) (lines : list string) (st : Mp3Player) :
  let found := from_path pathlib <$> filter (λ p, exists_ fs p = true) lines in
  append_existing pathlib fs lines st
  = set_playlist_widget
      (mkList (items (playlist_widget st) ++ (title <$> found))
              (current (playlist_widget st)))
      (set_tracks (tracks st ++ found) st).
Proof.
  revert st. induction lines as [|p lines IH]; intros st.
  - cbn. rewrite !app_nil_r. by destruct st as [? ? ? ? ? []].
  - change (append_existing pathlib fs (p :: lines) st)
      with (append_existing pathlib fs lines
              (if exists_ fs p then append_track (from_path pathlib p) st else st)).
    rewrite filter_cons. destruct (exists_ fs p) eqn:E.
    + rewrite decide_True by done. rewrite IH. cbn.
      by rewrite <- !app_assoc.
    + rewrite decide_False by done. by rewrite IH.
Qed.

Lemma save_playlist_written (file : string) (fs : FileSystem) (st : Mp3Player) :
  file ≠ EmptyString → open_w fs file = true →
  save_playlist file fs st
  = (showMessage ("Плейлист сохранён: " +:+ file) st,
     write_text file (playlist_text (tracks st)) fs).
Proof.
  intros Hf Hw. unfold save_playlist. destruct file; [done|].
  cbn [Py.nonempty negb]. by rewrite Hw.
Qed.

(** Loading a file that holds the text written for the registry [ts]. *)
Lemma load_saved_text (file : string) (fs : FileSystem) (ts : list Track)
    (st0 : Mp3Player) :
  file ≠ EmptyString →
  Forall (λ t, clean_path (path t) ∧ from_path pathlib (path t) = t) ts →
  open_r fs file = Some (playlist_text ts) →
  let st := load_playlist pathlib file fs st0 in
  tracks st = filter (λ t, exists_ fs (path t) = true) ts ∧
  items (playlist_widget st) = title <$> tracks st.
Proof.
  intros Hf Hts Hr st. subst st. unfold load_playlist.
  destruct file; [done|]. cbn [Py.nonempty negb]. rewrite Hr.
  rewrite TextFacts.playlist_lines_text
    by (eapply Forall_impl; [exact Hts | by intros ? []]).
  rewrite append_existing_eq. cbn.
  assert (E : from_path pathlib <$> filter (λ p, exists_ fs p = true) (path <$> ts)
              = filter (λ t, exists_ fs (path t) = true) ts).
  { clear Hr. induction Hts as [|t ts [_ Ht] _ IH]; [done|].
    cbn [fmap list_fmap]. rewrite !filter_cons.
    destruct (exists_ fs (path t)) eqn:E.
    - rewrite !decide_True by done. cbn [fmap list_fmap]. by rewrite Ht, IH.
    - rewrite !decide_False by done. exact IH. }
  by rewrite E.
Qed.

(** C8, as amended.  A registry whose paths are clean (not empty, on one
    line, without white space at either end) is saved as one path per line;
    loading that file gives the tracks of the registry whose path exists at
    load time, in the same order and with the same paths and titles: all of
    them when all exist, and when one is missing the tracks before it keep
    their places. *)
Theorem playlist_round_trip (file : string) (fs : FileSystem) (st : Mp3Player) :
  file ≠ EmptyString → open_w fs file = true →
  Forall (λ t, clean_path (path t) ∧ from_path pathlib (path t) = t) (tracks st) →
  let saved := save_playlist file fs st in
  tracks saved.1 = tracks st ∧
  open_r saved.2 file = Some (playlist_text (tracks st)) ∧
  ∀ fs' st0, open_r fs' file = Some (playlist_text (tracks st)) →
    let st' := load_playlist pathlib file fs' st0 in
    tracks st' = filter (λ t, exists_ fs' (path t) = true) (tracks st) ∧
    items (playlist_widget st') = title <$> tracks st' ∧
    (Forall (λ t, exists_ fs' (path t) = true) (tracks st) →
       tracks st' = tracks st) ∧
    (∀ before t after, tracks st = before ++ t :: after →
       Forall (λ t, exists_ fs' (path t) = true) before →
       exists_ fs' (path t) = false →
       tracks st' = before ++ filter (λ t, exists_ fs' (path t) = true) after).
Proof.
  intros Hf Hw Hts saved. subst saved. rewrite save_playlist_written by done.
  split; [done|]. split.
  { cbn. by rewrite decide_True. }
  intros fs' st0 Hr st'.
  destruct (load_saved_text file fs' (tracks st) st0 Hf Hts Hr) as [Ht Hi].
  fold st' in Ht, Hi. split; [done|]. split; [done|]. split.
  - intros Hall. rewrite Ht. clear -Hall.
    induction Hall as [|t ts H _ IH]; [done|].
    rewrite filter_cons, decide_True by done. by rewrite IH.
  - intros before t after Hsplit Hb Hm. rewrite Ht, Hsplit.
    rewrite filter_app, filter_cons, decide_False by (by rewrite Hm).
    f_equal. clear -Hb. induction Hb as [|x xs H _ IH]; [done|].
    rewrite filter_cons, decide_True by done. by rewrite IH.
Qed.

Lemma restore_volume_tracks (s : Session) (st : Mp3Player) :
  tracks (restore_volume s st) = tracks st ∧
  playlist_widget (restore_volume s st) = playlist_widget st ∧
  current_index (restore_volume s st) = current_index st ∧
  player (restore_volume s st) = player st.
Proof.
  unfold restore_volume. destruct (last_volume s) as [v|]; [|done].
  destruct (h ← Float.of_int 100; Float.mul v h) as [x|]; [|done].
  unfold set_volume_slider_value, on_volume_changed.
  destruct (decide _); [done|].
  by destruct (Float.truediv _ 100).
Qed.

(** C4, as amended.  When the last-state marker reads as index, bar,
    position, the index is an index of the restored track list and the
    position is one the service takes, a signed 64-bit number, the window
    starts with the track at that index bound as the media source, at that
    position, paused, and with that index current. *)
Theorem restore_state_spec (fs : FileSystem) (s : Session)
    (text a b : string) (idx pos : Z) :
  last_state s = Some text → Py.split "|" text = [a; b] →
  Py.int a = Some idx → Py.int b = Some pos →
  - 2 ^ 63 ≤ pos < 2 ^ 63 →
  let restored := restore_tracks pathlib fs s setup in
  0 ≤ idx < Py.len (tracks restored) →
  ∃ t, tracks restored !! Z.to_nat idx = Some t ∧
    let st := __init__ pathlib fs s in
    tracks st = tracks restored ∧
    current_index st = Some idx ∧
    source (player st) = Some (path t) ∧
    position (player st) = pos ∧
    playbackState (player st) = PausedState.
Proof.
  intros Hs Hsplit Ha Hb Hpos restored Hidx.
  assert (Hq : qint64 pos = true).
  { unfold qint64. apply andb_true_iff. split; [apply Z.leb_le|apply Z.ltb_lt]; lia. }
  unfold __init__. fold restored.
  destruct (restore_volume_tracks s restored) as (Ht & _).
  set (st1 := restore_volume s restored) in *.
  unfold restore_state. rewrite Hs, Hsplit, Ha, Hb.
  rewrite decide_True by (by rewrite Ht).
  set (st2 := set_playlist_widget _ _).
  destruct (_play_index_valid idx st2) as (t & st3 & Hl & Hp & Hc & Hpl & Htr & _).
  { subst st2. cbn. by rewrite Ht. }
  exists t. split; [by rewrite <- Ht|].
  cbv zeta. rewrite Hp, Hq. cbn. rewrite Hpl, Htr, Hc. cbn. by rewrite Ht.
Qed.

End PlaylistClaims.

(** A path with a line end inside it: the file holds it on two lines, and
    loading gives two other tracks. *)
Lemma playlist_round_trip_counterexample :
  let p := "/music/a" +:+ String Py.LF "b.mp3" in
  let st := add_tracks Demo.pathlib [p] setup in
  let saved := save_playlist "/lists/p.m3u" (Demo.fs []) st in
  tracks st = [mkTrack p ("a" +:+ String Py.LF "b")] ∧
  exists_ saved.2 p = true ∧
  tracks (load_playlist Demo.pathlib "/lists/p.m3u" saved.2 saved.1)
  = [mkTrack "/music/a" "a"; mkTrack "b.mp3" "b"].
Proof. by vm_compute. Qed.

Lemma playlist_round_trip_witness :
  let saved := save_playlist "/lists/p.m3u" (Demo.fs []) Demo.window in
  tracks saved.1 = tracks Demo.window ∧
  open_r saved.2 "/lists/p.m3u" = Some (playlist_text (tracks Demo.window)) ∧
  tracks (load_playlist Demo.pathlib "/lists/p.m3u" saved.2 saved.1)
  = tracks Demo.window.
Proof.
  intros saved.
  destruct (playlist_round_trip Demo.pathlib "/lists/p.m3u" (Demo.fs []) Demo.window)
    as (H1 & H2 & H3).
  - discriminate.
  - reflexivity.
  - vm_compute. repeat constructor; discriminate.
  - split; [exact H1|]. split; [exact H2|].
    destruct (H3 saved.2 saved.1 H2) as (_ & _ & Hall & _).
    apply Hall. vm_compute. repeat constructor.
Defined.

(** The session that closing leaves behind with four tracks, the third one
    current at 12000 ms and the volume at 0.35, and the window that opens on
    it. *)
(** A marker whose position is one past the largest signed 64-bit number:
    both fields read as integers and the index is valid, but the seek is
    refused inside the [try] and the pause after it is never reached, so the
    window starts with the track playing from its beginning. *)
Lemma restore_state_counterexample :
  let s := mkSession (Some (playlist_text (tracks Demo.window))) None
             (Some "2|9223372036854775808") in
  let w := __init__ Demo.pathlib (Demo.fs []) s in
  Py.split "|" "2|9223372036854775808" = ["2"; "9223372036854775808"] ∧
  Py.int "2" = Some 2 ∧ Py.int "9223372036854775808" = Some (2 ^ 63) ∧
  Py.len (tracks w) = 4 ∧ current_index w = Some 2 ∧
  source (player w) = Some "/music/c.mp3" ∧
  playbackState (player w) = PlayingState ∧ position (player w) = 0.
Proof. by vm_compute. Qed.

Lemma restore_state_spec_witness :
  let st := set_player (setPosition 12000 (player (Demo.playing 2)))
              (state_of (on_volume_changed 35 (Demo.playing 2))) in
  let s := closeEvent true true true (mkSession None None None) st in
  let w := __init__ Demo.pathlib (Demo.fs []) s in
  last_volume s = Some (Float.lit 35 100) ∧ last_state s = Some "2|12000" ∧
  (∃ t, tracks (restore_tracks Demo.pathlib (Demo.fs []) s setup) !! Z.to_nat 2 = Some t ∧
     tracks w = tracks (restore_tracks Demo.pathlib (Demo.fs []) s setup) ∧
     current_index w = Some 2 ∧
     source (player w) = Some (path t) ∧
     position (player w) = 12000 ∧
     playbackState (player w) = PausedState) ∧
  tracks w = tracks Demo.window ∧
  audio_output w = Float.lit 35 100 ∧ value (volume_slider w) = 35.
Proof.
  intros st s w. split; [reflexivity|]. split; [reflexivity|]. split.
  - apply (restore_state_spec Demo.pathlib (Demo.fs []) s "2|12000" "2" "12000" 2 12000).
    + reflexivity.
    + reflexivity.
    + reflexivity.
    + reflexivity.
    + vm_compute. split; [discriminate | reflexivity].
    + vm_compute. split; [discriminate | reflexivity].
  - vm_compute. repeat split; reflexivity.
Defined.

(** ** What the transport never does *)

(** The two ways [_play_index] can end: no track at the index and nothing
    changed, or the track bound and playing, with only the service, the
    current index, the mini label and the status line touched. *)
Lemma _play_index_cases (i : Z) (st : Mp3Player) :
  (Py.getitem (tracks st) i = None ∧ _play_index i st = Ok st) ∨
  (∃ t, Py.getitem (tracks st) i = Some t ∧
     _play_index i st =
       Ok (set_status ("Воспроизведение: " +:+ title t)
            (set_mini_label (title t)
              (set_current_index (Some i)
                (set_player (mkMedia (Some (path t)) PlayingState 0 0) st))))).
Proof.
  unfold _play_index. destruct (Py.getitem (tracks st) i) as [t|] eqn:E.
  - right. exists t. split; [done|]. cbn.
    unfold _update_mini_label. cbn. by rewrite E.
  - left. done.
Qed.

(** No handler of the transport lets an exception escape: the lookup that
    [_update_mini_label] makes is always at an index [_play_index] has just
    read. *)
Theorem transport_never_raises (st : Mp3Player) :
  (∀ i, ∃ st', _play_index i st = Ok st') ∧
  (∃ st', play_next st = Ok st') ∧
  (∃ st', play_prev st = Ok st') ∧
  (∃ st', play_selected st = Ok st') ∧
  (∃ st', toggle_pause st = Ok st') ∧
  (∀ row, ∃ st', on_item_double row st = Ok st') ∧
  (∀ status, ∃ st', on_media_status status st = Ok st').
Proof.
  assert (Hidx : ∀ i s, ∃ st', _play_index i s = Ok st').
  { intros i s. destruct (_play_index_cases i s) as [[_ H]|(t & _ & H)];
      rewrite H; by eexists. }
  assert (Hnext : ∀ s, ∃ st', play_next s = Ok st').
  { intros s. unfold play_next. destruct (current_index s); [|by eexists].
    destruct (decide _); [apply Hidx | by eexists]. }
  assert (Hsel : ∀ s, ∃ st', play_selected s = Ok st').
  { intros s. unfold play_selected.
    destruct (bool_decide _ && Py.truthy _); destruct (decide _);
      try (by eexists); destruct (bool_decide _ && bool_decide _);
      (by eexists) || apply Hidx. }
  split; [intros i; apply Hidx|]. split; [apply Hnext|]. split.
  { unfold play_prev. destruct (current_index st); [apply Hidx | by eexists]. }
  split; [apply Hsel|]. split.
  { unfold toggle_pause. destruct (playbackState (player st)); try by eexists.
    destruct (Hsel st) as [st' H]. rewrite H. by eexists. }
  split; [intros row; apply Hidx|].
  intros status. unfold on_media_status. destruct (decide _); [apply Hnext | by eexists].
Qed.

(** What a transport handler can change: never the registry nor the rows of
    the widget, and the current index only to an index it was given. *)
Lemma _play_index_frame (i : Z) (st : Mp3Player) :
  let st' := state_of (_play_index i st) in
  tracks st' = tracks st ∧ playlist_widget st' = playlist_widget st ∧
  (current_index st' = current_index st ∨ current_index st' = Some i).
Proof.
  destruct (_play_index_cases i st) as [[_ H]|(t & _ & H)]; rewrite H; cbn; auto.
Qed.

(** The transport keeps the widget in step with the registry and never
    makes the current index negative, so that the negative indices Python
    would accept are never used. *)
Theorem transport_keeps_invariants (st : Mp3Player) :
  lockstep st → index_from_front st →
  ∀ r, r ∈ [play_next st; play_prev st; play_selected st; toggle_pause st;
            on_media_status EndOfMedia st] →
  lockstep (state_of r) ∧ index_from_front (state_of r) ∧
  tracks (state_of r) = tracks st.
Proof.
  intros Hl Hi.
  assert (Hset : ∀ r s, items (playlist_widget s) = items (playlist_widget st) →
            tracks s = tracks st → (current_index s = current_index st) →
            0 ≤ r →
            lockstep (state_of (_play_index r s)) ∧
            index_from_front (state_of (_play_index r s)) ∧
            tracks (state_of (_play_index r s)) = tracks st).
  { intros r s Hitems Htr Hci Hr.
    destruct (_play_index_frame r s) as (Ht & Hw & Hc).
    unfold lockstep, index_from_front. rewrite Ht, Hw, Hitems, Htr.
    split; [exact Hl|]. split; [|done].
    intros i. destruct Hc as [-> | ->].
    - rewrite Hci. apply Hi.
    - intros [= <-]. done. }
  assert (Hsame : ∀ s, items (playlist_widget s) = items (playlist_widget st) →
            tracks s = tracks st → current_index s = current_index st →
            lockstep s ∧ index_from_front s ∧ tracks s = tracks st).
  { intros s Hitems Htr Hci. unfold lockstep, index_from_front.
    rewrite Hitems, Htr, Hci. done. }
  assert (Hnext : lockstep (state_of (play_next st)) ∧
                  index_from_front (state_of (play_next st)) ∧
                  tracks (state_of (play_next st)) = tracks st).
  { unfold play_next. destruct (current_index st) as [i|] eqn:E; [|by apply Hsame].
    destruct (decide _).
    - apply Hset; try done. specialize (Hi i E). lia.
    - cbn. split; [exact Hl|]. split; [|done]. by intros i'. }
  assert (Hsel : lockstep (state_of (play_selected st)) ∧
                 index_from_front (state_of (play_selected st)) ∧
                 tracks (state_of (play_selected st)) = tracks st).
  { unfold play_selected.
    destruct (bool_decide (currentRow (playlist_widget st) < 0) && Py.truthy (tracks st)).
    - rewrite decide_False by lia.
      destruct (bool_decide _ && bool_decide _); [by apply Hsame|].
      by apply Hset.
    - destruct (decide _); [by apply Hsame|].
      destruct (bool_decide _ && bool_decide _); [by apply Hsame|].
      apply Hset; try done. lia. }
  intros r Hr. rewrite !elem_of_cons in Hr.
  destruct Hr as [->|[->|[->|[->|[->|Hr]]]]].
  - exact Hnext.
  - unfold play_prev. destruct (current_index st) as [i|] eqn:E; [|by apply Hsame].
    apply Hset; try done. lia.
  - exact Hsel.
  - unfold toggle_pause. destruct (playbackState (player st));
      try (by apply Hsame).
    destruct (play_selected st) as [s|s]; cbn in *;
      (destruct Hsel as (H1 & H2 & H3); by apply conj).
  - exact Hnext.
  - by apply elem_of_nil in Hr.
Qed.

Lemma transport_keeps_invariants_witness :
  lockstep (state_of (play_prev (Demo.playing 0))) ∧
  index_from_front (state_of (play_prev (Demo.playing 0))) ∧
  tracks (state_of (play_prev (Demo.playing 0))) = tracks (Demo.playing 0).
Proof.
  apply (transport_keeps_invariants (Demo.playing 0)).
  - reflexivity.
  - intros i. vm_compute. intros [= <-]. discriminate.
  - apply elem_of_cons. right. apply elem_of_cons. by left.
Defined.

(** ** Filling and emptying the registry *)

Section Registry.

Context (pathlib : PathLib).

(** The loop of [add_tracks]: the paths that pass the test are appended in
    order and counted. *)
Lemma add_paths_eq (keep : string → bool) (paths : list string) (st : Mp3Player) :
  let new := from_path pathlib <$> filter (λ p, keep p = true) paths in
  add_paths pathlib keep paths st
  = (set_playlist_widget
       (mkList (items (playlist_widget st) ++ (title <$> new))
               (current (playlist_widget st)))
       (set_tracks (tracks st ++ new) st),
     Py.len new).
Proof.
  unfold add_paths.
  assert (H : ∀ n s,
    foldl (λ '(st, added) p,
             if keep p then (append_track (from_path pathlib p) st, added + 1)
             else (st, added)) (s, n) paths
    = (set_playlist_widget
         (mkList (items (playlist_widget s)
                  ++ (title <$> (from_path pathlib <$> filter (λ p, keep p = true) paths)))
                 (current (playlist_widget s)))
         (set_tracks (tracks s ++ (from_path pathlib <$> filter (λ p, keep p = true) paths)) s),
       n + Py.len (from_path pathlib <$> filter (λ p, keep p = true) paths))).
  { induction paths as [|p paths IH]; intros n s.
    - cbn. rewrite !app_nil_r, Z.add_0_r. by destruct s as [? ? ? ? ? []].
    - cbn [foldl]. rewrite filter_cons. destruct (keep p) eqn:E.
      + rewrite decide_True by done. rewrite IH. cbn.
        rewrite <- !app_assoc. f_equal. unfold Py.len. cbn. lia.
      + rewrite decide_False by done. by rewrite IH. }
  cbv zeta. rewrite H. by rewrite Z.add_0_l.
Qed.

(** A suffix that is one of the six extensions in any letter case is
    accepted, a path without suffix is not. *)
Lemma supported_suffix (p : string) :
  (∀ ext, ext ∈ SUPPORTED_EXTENSIONS →
     Py.lower (path_suffix pathlib p) = "." +:+ ext → supported pathlib p = true) ∧
  (path_suffix pathlib p = EmptyString → supported pathlib p = false).
Proof.
  unfold supported. split.
  - intros ext Hext ->. unfold SUPPORTED_EXTENSIONS in Hext.
    rewrite !elem_of_cons in Hext.
    destruct Hext as [->|[->|[->|[->|[->|[->|Hext]]]]]]; try done.
    by apply elem_of_nil in Hext.
  - intros ->. done.
Qed.

(** [add_tracks] appends, in the order of the dialog, exactly the chosen
    paths whose extension is supported, to the registry and to the widget
    alike, reports how many they were, and touches nothing else. *)
Theorem add_tracks_spec (paths : list string) (st : Mp3Player) :
  let new := from_path pathlib <$> filter (λ p, supported pathlib p = true) paths in
  let st' := add_tracks pathlib paths st in
  tracks st' = tracks st ++ new ∧
  items (playlist_widget st') = items (playlist_widget st) ++ (title <$> new) ∧
  status st' = "Добавлено: " +:+ Py.str (Py.len new) ∧
  current_index st' = current_index st ∧ player st' = player st ∧
  current (playlist_widget st') = current (playlist_widget st) ∧
  (lockstep st → lockstep st').
Proof.
  intros new st'. subst st'. unfold add_tracks. rewrite add_paths_eq. fold new.
  cbn. repeat split. unfold lockstep. cbn. intros ->. by rewrite fmap_app.
Qed.


End Registry.

(** [remove_selected] without a selection changes nothing; with one it
    takes the same row out of the registry and of the widget, so that they
    stay in step, and it never introduces a current index. *)
Theorem remove_selected_lockstep (st : Mp3Player) :
  lockstep st →
  let sel := currentRow (playlist_widget st) in
  let st' := remove_selected st in
  (sel = -1 → st' = st) ∧
  (0 ≤ sel →
     tracks st' = delete (Z.to_nat sel) (tracks st) ∧
     Py.len (tracks st') = Py.len (tracks st) - 1) ∧
  lockstep st' ∧
  (current_index st' = current_index st ∨ current_index st' = None).
Proof.
  intros Hl sel st'. subst st'. unfold remove_selected. fold sel.
  assert (Hcount : count (playlist_widget st) = Py.len (tracks st)).
  { unfold count, Py.len. by rewrite Hl, length_fmap. }
  destruct (currentRow_range (playlist_widget st)) as [Hrow|Hrow]; fold sel in Hrow.
  - rewrite decide_True by lia. repeat split; try done; try lia. by left.
  - rewrite decide_False by lia.
    assert (Hlen : (Z.to_nat sel < length (tracks st))%nat) by (unfold Py.len in *; lia).
    split; [lia|].
    destruct (decide (current_index st = Some sel)) as [E|E]; cbn;
      rewrite PyFacts.delitem_valid by lia; cbn;
      unfold takeItem; rewrite decide_True by lia; unfold lockstep; cbn;
      rewrite Hl, list_fmap_delete.
    + repeat split; try done; [|by right].
      unfold Py.len. rewrite length_delete by (by apply lookup_lt_is_Some). lia.
    + repeat split; try done; [|by left].
      unfold Py.len. rewrite length_delete by (by apply lookup_lt_is_Some). lia.
Qed.

Lemma remove_selected_lockstep_witness :
  let st := set_playlist_widget (setCurrentRow 1 (playlist_widget Demo.window))
              Demo.window in
  tracks (remove_selected st) = delete (Z.to_nat 1) (tracks st) ∧
  Py.len (tracks (remove_selected st)) = Py.len (tracks st) - 1 ∧
  lockstep (remove_selected st).
Proof.
  intros st.
  destruct (remove_selected_lockstep st) as (_ & H & Hl & _); [reflexivity|].
  destruct H as [H1 H2]; [vm_compute; discriminate|].
  split; [exact H1|]. split; [exact H2|exact Hl].
Defined.


Lemma add_tracks_spec_witness :
  let st' := add_tracks Demo.pathlib ["/music/e.FLAC"; "/notes/readme.txt"; "/music/f"]
               Demo.window in
  tracks st' = tracks Demo.window ++ [mkTrack "/music/e.FLAC" "e"] ∧
  status st' = "Добавлено: 1" ∧ lockstep st'.
Proof.
  intros st'.
  destruct (add_tracks_spec Demo.pathlib
              ["/music/e.FLAC"; "/notes/readme.txt"; "/music/f"] Demo.window)
    as (H1 & _ & H3 & _ & _ & _ & H7).
  split; [exact H1|]. split; [exact H3|]. apply H7. reflexivity.
Defined.

(** ** Start-up *)

Section Startup.

Context (pathlib : PathLib).

(** The last-state marker either changes nothing, or names an index of the
    registry, whose track is then bound, and sought and paused when the
    position is one the service takes; otherwise the track is left
    playing from its start. *)
Lemma restore_state_cases (s : Session) (st : Mp3Player) :
  restore_state s st = st ∨
  ∃ idx pos t pl, 0 ≤ idx < Py.len (tracks st) ∧
    tracks st !! Z.to_nat idx = Some t ∧
    source pl = Some (path t) ∧
    (qint64 pos = true ∧ pl = mkMedia (Some (path t)) PausedState pos 0 ∨
     qint64 pos = false ∧ pl = mkMedia (Some (path t)) PlayingState 0 0) ∧
    restore_state s st
    = set_player pl
        (set_status ("Воспроизведение: " +:+ title t)
          (set_mini_label (title t)
            (set_current_index (Some idx)
              (set_playlist_widget (setCurrentRow idx (playlist_widget st)) st)))).
Proof.
  unfold restore_state.
  destruct (last_state s) as [text|]; [|by left].
  destruct (Py.split "|" text) as [|a [|b [|? ?]]]; try by left.
  destruct (Py.int a) as [idx|]; [|by left].
  destruct (Py.int b) as [pos|]; [|by left].
  destruct (decide _) as [Hidx|]; [|by left].
  right. exists idx, pos.
  set (st2 := set_playlist_widget _ _).
  destruct (_play_index_cases idx st2) as [[Hn _]|(t & Ht & Hp)].
  - exfalso. destruct (PyFacts.getitem_is_Some (tracks st) idx Hidx) as [t Ht].
    subst st2. cbn in Hn. congruence.
  - exists t. rewrite Hp.
    assert (Hlook : tracks st !! Z.to_nat idx = Some t).
    { rewrite <- PyFacts.getitem_valid by done. exact Ht. }
    destruct (qint64 pos) eqn:Hq.
    + exists (mkMedia (Some (path t)) PausedState pos 0).
      split; [done|]. split; [done|]. split; [done|]. split; [by left|]. by cbn.
    + exists (mkMedia (Some (path t)) PlayingState 0 0).
      split; [done|]. split; [done|]. split; [done|]. split; [by right|]. by cbn.
Qed.

(** A marker that is missing, does not split on the bar into two fields,
    has a field that is not an integer, or names no index of the registry
    (such as the -1 written when nothing was current) is ignored. *)
Theorem restore_state_ignored (s : Session) (st : Mp3Player) :
  (last_state s = None ∨
   ∃ text, last_state s = Some text ∧
     (length (Py.split "|" text) ≠ 2%nat ∨
      ∃ a b, Py.split "|" text = [a; b] ∧
        (Py.int a = None ∨ Py.int b = None ∨
         ∃ idx, Py.int a = Some idx ∧ ¬ (0 ≤ idx < Py.len (tracks st))))) →
  restore_state s st = st.
Proof.
  unfold restore_state.
  intros [->|(text & -> & [Hlen|(a & b & -> & H)])]; [done| |].
  - destruct (Py.split "|" text) as [|a [|b [|? ?]]]; done.
  - destruct H as [->|[->|(idx & -> & Hidx)]]; [done| |].
    + by destruct (Py.int a).
    + destruct (Py.int b); [|done]. by rewrite decide_False.
Qed.



End Startup.

Lemma restore_state_ignored_witness :
  restore_state (mkSession None None (Some "-1|0")) Demo.window = Demo.window ∧
  restore_state (mkSession None None (Some "2|12000|7")) Demo.window = Demo.window ∧
  restore_state (mkSession None None (Some "two|12000")) Demo.window = Demo.window ∧
  restore_state (mkSession None None (Some (String (ascii_of_nat 31) "2|12000")))
    Demo.window = Demo.window.
Proof.
  split; [|split; [|split]].
  - apply restore_state_ignored. right. exists "-1|0". split; [reflexivity|].
    right. exists "-1", "0". split; [reflexivity|].
    right. right. exists (-1). split; [reflexivity|]. intros [H _]. by apply H.
  - apply restore_state_ignored. right. exists "2|12000|7". split; [reflexivity|].
    left. vm_compute. discriminate.
  - apply restore_state_ignored. right. exists "two|12000". split; [reflexivity|].
    right. exists "two", "12000". split; [reflexivity|]. by left.
  - apply restore_state_ignored. right.
    exists (String (ascii_of_nat 31) "2|12000"). split; [reflexivity|].
    right. exists (String (ascii_of_nat 31) "2"), "12000". split; [reflexivity|].
    by left.
Defined.

(** ** Views and the seek guard *)

(** [toggle_mini_mode] flips between the two views, relabels its button for
    the way back and touches nothing else; from a window whose button
    agrees with its view, two toggles give the window back. *)
Theorem toggle_mini_mode_spec (st : Mp3Player) :
  stack (toggle_mini_mode st) ≠ stack st ∧
  view_consistent (toggle_mini_mode st) ∧
  (∃ label page, toggle_mini_mode st = set_btn_toggle_mini label (set_stack page st)) ∧
  (view_consistent st → toggle_mini_mode (toggle_mini_mode st) = st).
Proof.
  unfold toggle_mini_mode, view_consistent.
  destruct st as [? ? ? ? ? ? ? lbl pg ? ? ? ? ?]. cbn.
  destruct pg; cbn; repeat split; try done; try (by eexists; eexists);
    intros ->; done.
Qed.

Lemma toggle_mini_mode_spec_witness :
  toggle_mini_mode (toggle_mini_mode Demo.window) = Demo.window.
Proof.
  apply (proj2 (proj2 (proj2 (toggle_mini_mode_spec Demo.window)))). reflexivity.
Defined.

(** While the slider is held, position updates from the service change
    nothing at all, however many arrive; letting go clears the flag even
    when no seek can be issued. *)
Theorem seek_guard (positions : list Z) (st : Mp3Player) :
  run (on_position_changed <$> positions) (on_seek_pressed st)
  = Ok (on_seek_pressed st) ∧
  _seeking (state_of (on_seek_released (on_seek_pressed st))) = false ∧
  (duration (player st) ≤ 0 →
     on_seek_released (on_seek_pressed st) = Ok (set_seeking false st)).
Proof.
  split; [|split].
  - induction positions as [|p ps IH]; [done|].
    cbn [fmap list_fmap run]. unfold on_position_changed at 1. cbn. exact IH.
  - unfold on_seek_released, on_seek_moved. cbn.
    destruct (decide _); [done|].
    destruct (_ ← _; _) as [x|]; [|done]. by destruct (qint64 _).
  - intros H. unfold on_seek_released, on_seek_moved. cbn.
    rewrite decide_True by done. by destruct st.
Qed.

Lemma seek_guard_witness :
  on_seek_released (on_seek_pressed Demo.window) = Ok (set_seeking false Demo.window).
Proof.
  apply (proj2 (proj2 (seek_guard [] Demo.window))). vm_compute. discriminate.
Defined.

(** ** Choosing what to play *)

(** [play_selected] with an empty playlist only says so; with the current
    track selected and paused it resumes where the track stood instead of
    binding it again, so that pausing and pressing play gives the service
    back as it was. *)
Theorem play_selected_spec (st : Mp3Player) :
  (tracks st = [] → lockstep st →
     play_selected st = Ok (set_status "Плейлист пуст" st)) ∧
  (∀ row, currentRow (playlist_widget st) = row → 0 ≤ row →
     current_index st = Some row →
     (playbackState (player st) = PausedState →
        play_selected st = Ok (set_player (play (player st)) st)) ∧
     (playbackState (player st) = PlayingState →
        ∃ st1 st2, toggle_pause st = Ok st1 ∧ play_selected st1 = Ok st2 ∧
          player st2 = player st ∧ current_index st2 = Some row)).
Proof.
  split.
  - intros Ht Hl. unfold play_selected.
    assert (Hrow : currentRow (playlist_widget st) = -1).
    { unfold currentRow, count, Py.len. rewrite Hl, Ht. cbn.
      by rewrite decide_False by lia. }
    rewrite Hrow, Ht. cbn. done.
  - intros row Hrow H0 Hc.
    assert (Hres : ∀ s, currentRow (playlist_widget s) = row →
              current_index s = Some row →
              playbackState (player s) = PausedState →
              play_selected s = Ok (set_player (play (player s)) s)).
    { intros s Hr Hi Hp. unfold play_selected. rewrite Hr.
      rewrite bool_decide_eq_false_2 by lia. cbn [andb].
      rewrite decide_False by lia.
      by rewrite !bool_decide_eq_true_2 by done. }
    split; [by apply Hres|].
    intros Hp. unfold toggle_pause. rewrite Hp.
    eexists. eexists. split; [reflexivity|]. split.
    + by apply Hres.
    + cbn. split; [|done]. destruct (player st). cbn in *. by rewrite Hp.
Qed.

Lemma play_selected_spec_witness :
  play_selected setup = Ok (set_status "Плейлист пуст" setup) ∧
  ∃ st1 st2, toggle_pause (set_playlist_widget (setCurrentRow 1 (playlist_widget (Demo.playing 1))) (Demo.playing 1)) = Ok st1 ∧
    play_selected st1 = Ok st2 ∧
    player st2 = player (Demo.playing 1) ∧ current_index st2 = Some 1.
Proof.
  split.
  - apply (proj1 (play_selected_spec setup)); reflexivity.
  - apply (proj2 (play_selected_spec
             (set_playlist_widget (setCurrentRow 1 (playlist_widget (Demo.playing 1)))
                (Demo.playing 1))) 1).
    + reflexivity.
    + lia.
    + reflexivity.
    + reflexivity.
Defined.

(** ** Integers as text *)

Module IntFacts.

Lemma parse_digits_uint (u : Decimal.uint) (acc n : Z) (b : bool) :
  u ≠ Decimal.Nil ∨ b = true →
  Py.parse_digits acc n b (NilEmpty.string_of_uint u)
  = Some (uint_val acc u, n + Z.of_nat (Decimal.nb_digits u)).
Proof.
  revert acc n b. induction u as [|u IH|u IH|u IH|u IH|u IH|u IH|u IH|u IH|u IH|u IH];
    intros acc n b Hb.
  - destruct Hb as [Hb| ->]; [done|]. cbn. do 2 f_equal. lia.
  - cbn [NilEmpty.string_of_uint Py.parse_digits]. change (Py.isdigit "0") with true.
    cbv iota. rewrite IH by (by right). cbn. do 2 f_equal. lia.
  - cbn [NilEmpty.string_of_uint Py.parse_digits]. change (Py.isdigit "1") with true.
    cbv iota. rewrite IH by (by right). cbn. do 2 f_equal. lia.
  - cbn [NilEmpty.string_of_uint Py.parse_digits]. change (Py.isdigit "2") with true.
    cbv iota. rewrite IH by (by right). cbn. do 2 f_equal. lia.
  - cbn [NilEmpty.string_of_uint Py.parse_digits]. change (Py.isdigit "3") with true.
    cbv iota. rewrite IH by (by right). cbn. do 2 f_equal. lia.
  - cbn [NilEmpty.string_of_uint Py.parse_digits]. change (Py.isdigit "4") with true.
    cbv iota. rewrite IH by (by right). cbn. do 2 f_equal. lia.
  - cbn [NilEmpty.string_of_uint Py.parse_digits]. change (Py.isdigit "5") with true.
    cbv iota. rewrite IH by (by right). cbn. do 2 f_equal. lia.
  - cbn [NilEmpty.string_of_uint Py.parse_digits]. change (Py.isdigit "6") with true.
    cbv iota. rewrite IH by (by right). cbn. do 2 f_equal. lia.
  - cbn [NilEmpty.string_of_uint Py.parse_digits]. change (Py.isdigit "7") with true.
    cbv iota. rewrite IH by (by right). cbn. do 2 f_equal. lia.
  - cbn [NilEmpty.string_of_uint Py.parse_digits]. change (Py.isdigit "8") with true.
    cbv iota. rewrite IH by (by right). cbn. do 2 f_equal. lia.
  - cbn [NilEmpty.string_of_uint Py.parse_digits]. change (Py.isdigit "9") with true.
    cbv iota. rewrite IH by (by right). cbn. do 2 f_equal. lia.
Qed.

(** Reading digits after [acc] is reading them into the little-endian
    number that [acc] stands for. *)
Lemma uint_val_revapp (u a : Decimal.uint) :
  uint_val (Z.of_N (DecimalPos.Unsigned.of_lu a)) u
  = Z.of_N (DecimalPos.Unsigned.of_lu (Decimal.revapp u a)).
Proof.
  revert a. induction u as [|u IH|u IH|u IH|u IH|u IH|u IH|u IH|u IH|u IH|u IH];
    intros a; [done|..]; cbn [uint_val Decimal.revapp]; rewrite <- IH; f_equal;
    cbn [DecimalPos.Unsigned.of_lu]; lia.
Qed.

Lemma uint_val_to_uint (p : positive) : uint_val 0 (Pos.to_uint p) = Z.pos p.
Proof.
  change 0 with (Z.of_N (DecimalPos.Unsigned.of_lu Decimal.Nil)).
  rewrite uint_val_revapp. change (Decimal.revapp ?u Decimal.Nil) with (Decimal.rev u).
  rewrite <- DecimalPos.Unsigned.of_uint_alt, DecimalPos.Unsigned.of_to. done.
Qed.

(** More digits, larger value. *)
Lemma uint_val_lower (u : Decimal.uint) (acc : Z) :
  0 ≤ acc → acc * 10 ^ Z.of_nat (Decimal.nb_digits u) ≤ uint_val acc u.
Proof.
  revert acc. induction u as [|u IH|u IH|u IH|u IH|u IH|u IH|u IH|u IH|u IH|u IH];
    intros acc Hacc; [cbn; lia|..];
    cbn [uint_val Decimal.nb_digits]; rewrite Nat2Z.inj_succ, Z.pow_succ_r by lia;
    (etrans; [|apply IH; lia]);
    assert (0 < 10 ^ Z.of_nat (Decimal.nb_digits u)) by (apply Z.pow_pos_nonneg; lia);
    nia.
Qed.

Lemma uint_val_head (u : Decimal.uint) :
  u ≠ Decimal.Nil → (∀ u', u ≠ Decimal.D0 u') →
  10 ^ (Z.of_nat (Decimal.nb_digits u) - 1) ≤ uint_val 0 u.
Proof.
  intros Hnil Hz.
  destruct u as [|u|u|u|u|u|u|u|u|u|u]; [done|by destruct (Hz u)|..];
    cbn [uint_val Decimal.nb_digits]; rewrite Nat2Z.inj_succ;
    replace (Z.succ (Z.of_nat (Decimal.nb_digits u)) - 1)
      with (Z.of_nat (Decimal.nb_digits u)) by lia;
    (etrans; [|apply uint_val_lower; lia]);
    assert (0 < 10 ^ Z.of_nat (Decimal.nb_digits u)) by (apply Z.pow_pos_nonneg; lia);
    lia.
Qed.

Lemma to_uint_head (p : positive) (u' : Decimal.uint) :
  Pos.to_uint p ≠ Decimal.D0 u'.
Proof.
  pose proof (DecimalPos.Unsigned.to_of (Pos.to_uint p)) as H.
  rewrite DecimalPos.Unsigned.of_to in H. cbn [N.to_uint] in H.
  intros E.
  destruct (Decimal.nzhead (Pos.to_uint p)) eqn:Hnz.
  - assert (Hz : Decimal.unorm (Pos.to_uint p) = Decimal.zero)
      by (by apply DecimalFacts.unorm_0).
    rewrite Hz in H. by apply (DecimalPos.Unsigned.to_uint_nonzero p).
  - rewrite DecimalFacts.unorm_nzhead in H by (by rewrite Hnz).
    rewrite E in H. by apply (DecimalFacts.nzhead_nonzero (Decimal.D0 u') u').
  - rewrite DecimalFacts.unorm_nzhead in H by (by rewrite Hnz).
    rewrite E in H. by apply (DecimalFacts.nzhead_nonzero (Decimal.D0 u') u').
  - rewrite DecimalFacts.unorm_nzhead in H by (by rewrite Hnz).
    rewrite E in H. by apply (DecimalFacts.nzhead_nonzero (Decimal.D0 u') u').
  - rewrite DecimalFacts.unorm_nzhead in H by (by rewrite Hnz).
    rewrite E in H. by apply (DecimalFacts.nzhead_nonzero (Decimal.D0 u') u').
  - rewrite DecimalFacts.unorm_nzhead in H by (by rewrite Hnz).
    rewrite E in H. by apply (DecimalFacts.nzhead_nonzero (Decimal.D0 u') u').
  - rewrite DecimalFacts.unorm_nzhead in H by (by rewrite Hnz).
    rewrite E in H. by apply (DecimalFacts.nzhead_nonzero (Decimal.D0 u') u').
  - rewrite DecimalFacts.unorm_nzhead in H by (by rewrite Hnz).
    rewrite E in H. by apply (DecimalFacts.nzhead_nonzero (Decimal.D0 u') u').
  - rewrite DecimalFacts.unorm_nzhead in H by (by rewrite Hnz).
    rewrite E in H. by apply (DecimalFacts.nzhead_nonzero (Decimal.D0 u') u').
  - rewrite DecimalFacts.unorm_nzhead in H by (by rewrite Hnz).
    rewrite E in H. by apply (DecimalFacts.nzhead_nonzero (Decimal.D0 u') u').
  - rewrite DecimalFacts.unorm_nzhead in H by (by rewrite Hnz).
    rewrite E in H. by apply (DecimalFacts.nzhead_nonzero (Decimal.D0 u') u').
Qed.

(** The decimal text of a positive number below [10^4300] has at most 4300
    digits. *)
Lemma to_uint_digits (p : positive) :
  Z.pos p < 10 ^ 4300 → Z.of_nat (Decimal.nb_digits (Pos.to_uint p)) ≤ 4300.
Proof.
  intros Hp.
  pose proof (uint_val_head (Pos.to_uint p)
                (DecimalPos.Unsigned.to_uint_nonnil p) (to_uint_head p)) as Hlow.
  rewrite uint_val_to_uint in Hlow.
  set (n := Z.of_nat (Decimal.nb_digits (Pos.to_uint p))) in *.
  destruct (Z.le_gt_cases n 4300) as [Hle|Hgt]; [exact Hle|exfalso].
  assert (H : 10 ^ 4300 ≤ 10 ^ (n - 1)).
  { clear Hp Hlow. apply Z.pow_le_mono_r; lia. }
  revert Hp Hlow H. generalize (10 ^ 4300) (10 ^ (n - 1)). clear. intros. lia.
Qed.

Lemma numeric_uint (u : Decimal.uint) : numeric (NilEmpty.string_of_uint u) = true.
Proof. induction u; cbn [NilEmpty.string_of_uint numeric]; by rewrite ?IHu. Qed.

Lemma numeric_str (z : Z) : numeric (Py.str z) = true.
Proof.
  unfold Py.str. destruct z as [|p|p]; [done| |].
  - cbn. unfold NilZero.string_of_uint.
    destruct (Pos.to_uint p) eqn:E; rewrite <- ?E; [done|apply numeric_uint..].
  - cbn. unfold NilZero.string_of_uint.
    destruct (Pos.to_uint p) eqn:E; rewrite <- ?E; [done|apply numeric_uint..].
Qed.

(** Numeric text has no white space, so [strip] leaves it alone. *)
Lemma numeric_char (c : ascii) :
  Py.isdigit c || Ascii.eqb c "-" = true →
  Py.int_space c = false ∧ Ascii.eqb c "|" = false.
Proof.
  intros H. apply orb_true_iff in H as [H|H].
  - unfold Py.isdigit in H. apply andb_true_iff in H as [H1 H2].
    apply Z.leb_le in H1, H2. split.
    + unfold Py.int_space. cbv zeta.
      repeat match goal with
      | |- context [(?a <=? ?b)] => destruct (Z.leb_spec a b)
      | |- context [(?a =? ?b)] => destruct (Z.eqb_spec a b)
      end; try lia; done.
    + apply Ascii.eqb_neq. intros ->. vm_compute in H1. by apply H1.
  - apply Ascii.eqb_eq in H as ->. done.
Qed.

Lemma numeric_strip (s : string) :
  numeric s = true → Py.int_rstrip (Py.int_lstrip s) = s.
Proof.
  intros H.
  assert (Hl : Py.int_lstrip s = s).
  { destruct s as [|c s]; [done|]. cbn in H. apply andb_true_iff in H as [Hc _].
    cbn. by rewrite (proj1 (numeric_char c Hc)). }
  rewrite Hl. induction s as [|c s IH]; [done|].
  cbn [numeric] in H. apply andb_true_iff in H as [Hc Hs].
  cbn [Py.int_rstrip]. rewrite IH; [|done|].
  - rewrite (proj1 (numeric_char c Hc)). by destruct s.
  - destruct s as [|c' s]; [done|]. cbn in Hs. apply andb_true_iff in Hs as [Hc' _].
    cbn. by rewrite (proj1 (numeric_char c' Hc')).
Qed.

Lemma split_numeric (cur a rest : string) :
  numeric a = true →
  Py.split_from "|" cur (a +:+ String "|" rest)
  = (cur +:+ a) :: Py.split_from "|" EmptyString rest.
Proof.
  revert cur. induction a as [|c a IH]; intros cur H.
  - cbn. by rewrite TextFacts.append_empty_r.
  - cbn [numeric] in H. apply andb_true_iff in H as [Hc Ha].
    rewrite TextFacts.append_cons. cbn [Py.split_from].
    rewrite (proj2 (numeric_char c Hc)). rewrite IH by done.
    by rewrite TextFacts.append_assoc.
Qed.

Lemma split_numeric_last (cur a : string) :
  numeric a = true → Py.split_from "|" cur a = [cur +:+ a].
Proof.
  revert cur. induction a as [|c a IH]; intros cur H.
  - cbn. by rewrite TextFacts.append_empty_r.
  - cbn [numeric] in H. apply andb_true_iff in H as [Hc Ha].
    cbn [Py.split_from].
    rewrite (proj2 (numeric_char c Hc)). rewrite IH by done.
    by rewrite TextFacts.append_assoc.
Qed.

(** [int(str(z))] is [z], for every integer the interpreter's digit limit
    lets through. *)
Lemma int_str (z : Z) : Z.abs z < 10 ^ 4300 → Py.int (Py.str z) = Some z.
Proof.
  intros Hz. unfold Py.int. rewrite numeric_strip by apply numeric_str.
  unfold Py.str. destruct z as [|p|p].
  - done.
  - cbn [Z.to_int NilZero.string_of_int]. unfold NilZero.string_of_uint.
    pose proof (DecimalPos.Unsigned.to_uint_nonnil p) as Hnil.
    pose proof (to_uint_head p) as Hhead.
    pose proof (to_uint_digits p Hz) as Hd.
    pose proof (uint_val_to_uint p) as Hv.
    pose proof (parse_digits_uint (Pos.to_uint p) 0 0 false (or_introl Hnil)) as Hp.
    clear Hz.
    destruct (Pos.to_uint p) as [|u|u|u|u|u|u|u|u|u|u] eqn:E; [done|by destruct (Hhead u)|..];
      cbn [NilEmpty.string_of_uint] in *;
      rewrite Hp, Hv; by rewrite (proj2 (Z.ltb_ge _ _)) by lia.
  - cbn [Z.to_int NilZero.string_of_int]. unfold NilZero.string_of_uint.
    pose proof (DecimalPos.Unsigned.to_uint_nonnil p) as Hnil.
    pose proof (to_uint_digits p Hz) as Hd.
    pose proof (uint_val_to_uint p) as Hv.
    pose proof (parse_digits_uint (Pos.to_uint p) 0 0 false (or_introl Hnil)) as Hp.
    clear Hz.
    destruct (Pos.to_uint p) eqn:E; [done|..]; rewrite <- E in *;
      rewrite Hp, Hv; by rewrite (proj2 (Z.ltb_ge _ _)) by lia.
Qed.

(** Every signed 64-bit number is far below the length at which [int]
    gives up. *)
Lemma pow_digits : 2 ^ 63 < 10 ^ 4300.
Proof.
  apply (Z.lt_le_trans _ (10 ^ 63)); [by apply Z.ltb_lt | apply Z.pow_le_mono_r; lia].
Qed.

End IntFacts.

(** ** Closing and opening again *)

Section SessionRoundTrip.

Context (pathlib : PathLib).

(** The lines written for a registry of clean paths give back, of its
    tracks, those whose path exists. *)
Lemma existing_tracks (fs : FileSystem) (ts : list Track) :
  Forall (λ t, clean_path (path t) ∧ from_path pathlib (path t) = t) ts →
  from_path pathlib <$>
    filter (λ p, exists_ fs p = true) (playlist_lines (playlist_text ts))
  = filter (λ t, exists_ fs (path t) = true) ts.
Proof.
  intros Hts.
  rewrite TextFacts.playlist_lines_text
    by (eapply Forall_impl; [exact Hts | by intros ? []]).
  induction Hts as [|t ts [_ Ht] _ IH]; [done|].
  cbn [fmap list_fmap]. rewrite !filter_cons.
  destruct (exists_ fs (path t)) eqn:E.
  - rewrite !decide_True by done. cbn [fmap list_fmap]. by rewrite Ht, IH.
  - rewrite !decide_False by done. exact IH.
Qed.

(** The marker that [closeEvent] writes splits into its two numbers. *)
Lemma marker_split (idx pos : Z) :
  Py.split "|" (Py.str idx +:+ "|" +:+ Py.str pos) = [Py.str idx; Py.str pos].
Proof.
  unfold Py.split. change ("|" +:+ Py.str pos) with (String "|" (Py.str pos)).
  rewrite IntFacts.split_numeric by apply IntFacts.numeric_str.
  by rewrite IntFacts.split_numeric_last by apply IntFacts.numeric_str.
Qed.

(** The round trip for any bound [B] on the numbers that [int] reads back
    from their decimal text. *)
Lemma session_round_trip_below (B : Z) (fs : FileSystem) (old : Session)
    (st : Mp3Player) :
  (∀ z, Z.abs z < B → Py.int (Py.str z) = Some z) → 2 ^ 63 < B →
  Forall (λ t, clean_path (path t) ∧ from_path pathlib (path t) = t
               ∧ exists_ fs (path t) = true) (tracks st) →
  - 2 ^ 63 ≤ position (player st) < 2 ^ 63 →
  let w := __init__ pathlib fs (closeEvent true true true old st) in
  tracks w = tracks st ∧ lockstep w ∧
  (current_index st = None →
     current_index w = None ∧ player w = mkMedia None StoppedState 0 0) ∧
  (∀ i, current_index st = Some i → 0 ≤ i < Py.len (tracks st) →
     Py.len (tracks st) < B →
     ∃ t, tracks st !! Z.to_nat i = Some t ∧
       current_index w = Some i ∧
       source (player w) = Some (path t) ∧
       position (player w) = position (player st) ∧
       playbackState (player w) = PausedState).
Proof.
  intros Hint HB Hts Hq w. subst w. unfold __init__.
  assert (Hq64 : qint64 (position (player st)) = true).
  { unfold qint64. apply andb_true_iff. split; [apply Z.leb_le|apply Z.ltb_lt]; lia. }
  change (2 ^ 63) with 9223372036854775808 in HB, Hq.
  assert (Hpos : Py.int (Py.str (position (player st))) = Some (position (player st)))
    by (apply Hint; lia).
  set (s := closeEvent true true true old st).
  set (st0 := restore_tracks pathlib fs s setup).
  assert (H0 : tracks st0 = tracks st ∧ lockstep st0 ∧ current_index st0 = None
               ∧ player st0 = mkMedia None StoppedState 0 0).
  { subst st0 s. unfold restore_tracks, closeEvent. cbn [last_session_file].
    rewrite append_existing_eq. unfold lockstep. cbn.
    rewrite existing_tracks
      by (eapply Forall_impl; [exact Hts | by intros ? (? & ? & ?)]).
    assert (E : filter (λ t, exists_ fs (path t) = true) (tracks st) = tracks st).
    { clear -Hts. induction Hts as [|t ts (_ & _ & He) _ IH]; [done|].
      rewrite filter_cons, decide_True by done. by rewrite IH. }
    by rewrite E. }
  destruct H0 as (Ht0 & Hl0 & Hc0 & Hp0).
  set (st1 := restore_volume s st0).
  destruct (restore_volume_tracks s st0) as (Ht1 & Hw1 & Hc1 & Hp1).
  fold st1 in Ht1, Hw1, Hc1, Hp1.
  assert (Hl1 : lockstep st1) by (unfold lockstep; by rewrite Hw1, Ht1).
  destruct (current_index st) as [i|] eqn:Hci.
  - destruct (decide (0 ≤ i < Py.len (tracks st) ∧ Py.len (tracks st) < B))
      as [[Hi Hlen]|Hno].
    + assert (Hrs : ∃ t, tracks st !! Z.to_nat i = Some t ∧
                restore_state s st1
                = set_player (mkMedia (Some (path t)) PausedState (position (player st)) 0)
                    (set_status ("Воспроизведение: " +:+ title t)
                      (set_mini_label (title t)
                        (set_current_index (Some i)
                          (set_playlist_widget
                             (setCurrentRow i (playlist_widget st1)) st1))))).
      { assert (Ha : Py.int (Py.str i) = Some i) by (apply Hint; lia).
        unfold restore_state. subst s. unfold closeEvent. rewrite Hci.
        cbn [last_state]. rewrite marker_split, Ha, Hpos.
        rewrite decide_True by (by rewrite Ht1, Ht0).
        set (st2 := set_playlist_widget _ _).
        assert (Hst2 : tracks st2 = tracks st).
        { transitivity (tracks st1); [reflexivity | by rewrite Ht1]. }
        destruct (_play_index_cases i st2) as [[Hn _]|(t & Ht & Hp)].
        - exfalso. destruct (PyFacts.getitem_is_Some (tracks st) i Hi) as [t Ht].
          rewrite Hst2 in Hn. congruence.
        - exists t. split.
          + rewrite <- PyFacts.getitem_valid by done. by rewrite Hst2 in Ht.
          + rewrite Hp, Hq64. reflexivity. }
      destruct Hrs as (t & Hlook & ->).
      split; [transitivity (tracks st1); [reflexivity | by rewrite Ht1]|]. split.
      { exact Hl1. }
      split; [done|]. intros i' [= <-] _ _. by exists t.
    + assert (Hsame : tracks (restore_state s st1) = tracks st ∧
                      lockstep (restore_state s st1)).
      { destruct (restore_state_cases s st1)
          as [E|(idx & pos & t & pl & _ & _ & _ & _ & E)]; rewrite E.
        - split; [by rewrite Ht1 | exact Hl1].
        - split; [transitivity (tracks st1); [reflexivity | by rewrite Ht1]
                 | exact Hl1]. }
      destruct Hsame as [Hs1 Hs2]. split; [done|]. split; [done|]. split; [done|].
      intros i' [= <-] Hi Hlen. by destruct Hno.
  - assert (Hign : restore_state s st1 = st1).
    { assert (Ha : Py.int (Py.str (-1)) = Some (-1)) by (apply Hint; lia).
      unfold restore_state. subst s. unfold closeEvent. rewrite Hci.
      cbn [last_state]. rewrite marker_split, Ha, Hpos.
      by rewrite decide_False by lia. }
    rewrite Hign. split; [by rewrite Ht1|]. split; [done|]. split; [|done].
    intros _. by rewrite Hc1, Hp1.
Qed.

(** A window closed and opened again: with the three files written, the
    paths clean and still there, the registry comes back as it was; a
    current index of the registry comes back with its track bound, paused,
    at the position the service had; without a current index nothing is
    bound. *)
Theorem session_round_trip (fs : FileSystem) (old : Session) (st : Mp3Player) :
  Forall (λ t, clean_path (path t) ∧ from_path pathlib (path t) = t
               ∧ exists_ fs (path t) = true) (tracks st) →
  - 2 ^ 63 ≤ position (player st) < 2 ^ 63 →
  let w := __init__ pathlib fs (closeEvent true true true old st) in
  tracks w = tracks st ∧ lockstep w ∧
  (current_index st = None →
     current_index w = None ∧ player w = mkMedia None StoppedState 0 0) ∧
  (∀ i, current_index st = Some i → 0 ≤ i < Py.len (tracks st) →
     Py.len (tracks st) < 10 ^ 4300 →
     ∃ t, tracks st !! Z.to_nat i = Some t ∧
       current_index w = Some i ∧
       source (player w) = Some (path t) ∧
       position (player w) = position (player st) ∧
       playbackState (player w) = PausedState).
Proof.
  exact (session_round_trip_below (10 ^ 4300) fs old st
           IntFacts.int_str IntFacts.pow_digits).
Qed.

End SessionRoundTrip.

Lemma session_round_trip_witness :
  let st := set_player (setPosition 12000 (player (Demo.playing 2))) (Demo.playing 2) in
  let w := __init__ Demo.pathlib (Demo.fs [])
             (closeEvent true true true (mkSession None None None) st) in
  tracks w = tracks st ∧
  ∃ t, tracks st !! Z.to_nat 2 = Some t ∧
    current_index w = Some 2 ∧
    source (player w) = Some (path t) ∧
    position (player w) = position (player st) ∧
    playbackState (player w) = PausedState.
Proof.
  intros st w.
  destruct (session_round_trip Demo.pathlib (Demo.fs []) (mkSession None None None) st)
    as (H1 & _ & _ & H4).
  - vm_compute. repeat constructor; discriminate.
  - vm_compute. split; [discriminate | reflexivity].
  - split; [exact H1|]. apply H4.
    + reflexivity.
    + vm_compute. split; [discriminate | reflexivity].
    + apply (Z.lt_trans _ (2 ^ 63)); [reflexivity | apply IntFacts.pow_digits].
Defined.

(** ** Restoring the volume *)

Lemma truediv_percent (k : Z) : 0 ≤ k ≤ 100 → is_Some (Float.truediv k 100).
Proof.
  intros Hk. unfold Float.truediv. change (100 =? 0) with false. cbv iota.
  change (Z.sgn 100) with 1. change (Z.abs 100) with 100. rewrite Z.mul_1_r.
  destruct (Z.eq_dec k 0) as [->|Hk0]; [by eexists|].
  assert (H1022 : 100 ≤ 2 ^ 1022) by (apply Z.leb_le; vm_compute; reflexivity).
  destruct (FloatFacts.round_fraction k 100) as (s & x & _ & _ & Hr & _);
    [lia | lia | change (2 ^ 52) with 4503599627370496; lia
     | generalize dependent (2 ^ 1022); intros; nia |].
  by eexists.
Qed.

(** The stored volume is set first and then passed through the slider: the
    slider takes [int(v * 100)] kept within 0 and 100, and unless it already
    stood there its slot sets the volume again, to that whole percentage.
    When [v * 100] is too large for a float only the first setting
    remains. *)
Theorem restore_volume_spec (s : Session) (st : Mp3Player) (v : Float.float) :
  last_volume s = Some v →
  minimum (volume_slider st) = 0 → maximum (volume_slider st) = 100 →
  let st' := restore_volume s st in
  ((h ← Float.of_int 100; Float.mul v h) = None →
     st' = set_audio_output (setVolume v) st) ∧
  (∀ x, (h ← Float.of_int 100; Float.mul v h) = Some x →
     - 2 ^ 31 ≤ Float.to_int x < 2 ^ 31 →
     let k := Z.max 0 (Z.min 100 (Float.to_int x)) in
     value (volume_slider st') = k ∧
     (k = value (volume_slider st) → audio_output st' = setVolume v) ∧
     (k ≠ value (volume_slider st) →
        ∃ q, Float.truediv k 100 = Some q ∧ audio_output st' = setVolume q)).
Proof.
  intros Hv Hmin Hmax st'. subst st'. unfold restore_volume. rewrite Hv.
  split; [by intros ->|]. intros x -> _.
  unfold set_volume_slider_value, on_volume_changed. cbn.
  rewrite Hmin, Hmax.
  destruct (decide _) as [E|E]; cbn.
  - rewrite ?Hmin, ?Hmax. split; [done|]. split; [done|].
    intros Hne. by destruct Hne.
  - destruct (truediv_percent (Z.max 0 (Z.min 100 (Float.to_int x)))) as [q Hq]; [lia|].
    change (Float.round (0 `max` (100 `min` Float.to_int x) * 1) (Z.abs 100))
      with (Float.truediv (0 `max` (100 `min` Float.to_int x)) 100).
    rewrite Hq. cbn. rewrite ?Hmin, ?Hmax. split; [done|].
    split; [intros Hk; by destruct E|]. intros _. by exists q.
Qed.

Lemma restore_volume_spec_witness :
  let s := mkSession None (Some (Float.lit 355 1000)) None in
  value (volume_slider (restore_volume s setup)) = 35 ∧
  ∃ q, Float.truediv 35 100 = Some q ∧
       audio_output (restore_volume s setup) = setVolume q.
Proof.
  intros s.
  destruct (restore_volume_spec s setup (Float.lit 355 1000) eq_refl eq_refl eq_refl)
    as [_ H].
  specialize (H (Float.lit 355 10) eq_refl).
  destruct H as (H1 & _ & H3).
  - vm_compute. split; [discriminate | reflexivity].
  - split; [exact H1|].
    destruct H3 as (q & Hq & Ha); [vm_compute; discriminate|].
    exists q. split; [exact Hq | exact Ha].
Defined.

Lemma supported_suffix_witness :
  supported Demo.pathlib "/music/loud.Mp3" = true ∧
  supported Demo.pathlib "/music/noext" = false.
Proof.
  split.
  - apply (proj1 (supported_suffix Demo.pathlib "/music/loud.Mp3") "mp3").
    + apply elem_of_cons. by left.
    + reflexivity.
  - apply (proj2 (supported_suffix Demo.pathlib "/music/noext")). reflexivity.
Defined.
